(** * Blue-Rabat: the indicator engine and order logic of [main.py]

    A shallow embedding of the [IBKRConnector] class of [src/main.py]:
    the Heikin-Ashi transform, the EMA smoother, the bar-update and fill
    handlers, the entry gate and the trailing-stop manager.

    Numbers are the code's own: prices are IEEE-754 binary64 values
    (Rocq's primitive [float], the type of a Python [float] and of a
    numpy [float64]); sizes, periods and order ids are Python integers
    ([Z]).  A pandas [Series] of prices is a [list float]; the broker
    ([self.ib]) is a record of the tables the code reads and of the
    orders it has been handed. *)

From Stdlib Require Import ZArith List String Bool Lia Floats.
From Stdlib Require Import DecimalPos DecimalZ DecimalString.
From stdpp Require Import base list.
Import ListNotations.

Local Open Scope Z_scope.
Local Open Scope nat_scope.

(** ** The Python fragment used by the code *)

Module Py.

(** The exceptions the modelled code can raise. *)
Inductive exn : Set :=
| TypeError           (* subscripting [None] *)
| IndexError          (* [iloc] out of bounds *)
| KeyError            (* a missing DataFrame column *)
| ZeroDivisionError   (* integer true division by zero *)
| UnboundLocalError.  (* a local read before any assignment *)

(** A computation either returns a value or raises. *)
Inductive result (A : Type) : Type :=
| Ok (a : A)
| Raise (e : exn).
Arguments Ok {A} a.
Arguments Raise {A} e.

#[global] Instance result_ret : MRet result := fun _ a => Ok a.
#[global] Instance result_bind : MBind result := fun _ _ f m =>
  match m with
  | Ok a => f a
  | Raise e => Raise e
  end.

(** [for i in range(lo, lo + n): s = body(i, s)], stopping at the first
    exception. *)
Fixpoint for_range {S : Type} (lo n : nat) (body : nat → S → result S)
    (s : S) : result S :=
  match n with
  | O => Ok s
  | Datatypes.S n' => s' ← body lo s; for_range (Datatypes.S lo) n' body s'
  end.

(** The built-in [max] and [min] on three arguments: the first argument is
    kept unless a later one compares strictly greater (smaller). *)
Definition max3 (a b c : float) : float :=
  let m := a in
  let m := if (m <? b)%float then b else m in
  if (m <? c)%float then c else m.

Definition min3 (a b c : float) : float :=
  let m := a in
  let m := if (b <? m)%float then b else m in
  if (c <? m)%float then c else m.

(** An integer as a binary floating-point number with exponent 0 (exact,
    the mantissa is not yet rounded). *)
Definition Z2SF (z : Z) : spec_float :=
  match z with
  | Z0 => S754_zero false
  | Zpos p => S754_finite false p 0
  | Zneg p => S754_finite true p 0
  end.

(** [a / b] on integers: the correctly rounded quotient as a float, and
    [ZeroDivisionError] for a zero divisor.  (Python also refuses a quotient
    beyond the float range; the code only ever divides 2, so no quotient
    exceeds 2 in magnitude.) *)
Definition truediv (a b : Z) : result float :=
  if (b =? 0)%Z then Raise ZeroDivisionError
  else Ok (SF2Prim (SFdiv prec emax (Z2SF a) (Z2SF b))).

(** [f"{n}"] for an integer. *)
Definition str_int (n : Z) : string := NilZero.string_of_int (Z.to_int n).

End Py.
Import Py.

(** Runs the binds of the [result] monad whose left side is a known value. *)
Ltac run_bind := cbv beta iota delta [mbind result_bind].

(** ** pandas Series and DataFrame *)

(** A float Series with the default range index. *)
Abbreviation Series := (list float).

(** [s.iloc[i]]: positional read; a negative position counts from the end. *)
Definition iloc (s : Series) (i : Z) : result float :=
  let n := Z.of_nat (length s) in
  let j := if (i <? 0)%Z then (i + n)%Z else i in
  if ((0 <=? j)%Z && (j <? n)%Z)%bool then
    match s !! Z.to_nat j with
    | Some v => Ok v
    | None => Raise IndexError
    end
  else Raise IndexError.

(** [s.iloc[i] = v]: positional write, never enlarging the Series. *)
Definition iloc_set (s : Series) (i : Z) (v : float) : result Series :=
  let n := Z.of_nat (length s) in
  let j := if (i <? 0)%Z then (i + n)%Z else i in
  if ((0 <=? j)%Z && (j <? n)%Z)%bool then Ok (<[Z.to_nat j := v]> s)
  else Raise IndexError.

(** Element-wise [s + t] on two Series with the same index, and [s / k]. *)
Definition series_add (s t : Series) : Series := zip_with PrimFloat.add s t.
Definition series_div (s : Series) (k : float) : Series :=
  (fun x => (x / k)%float) <$> s.

(** A bar as delivered by the broker; only the four prices are read. *)
Record BarData : Set := mkBar {
  bar_open : float;
  bar_high : float;
  bar_low : float;
  bar_close : float
}.

(** A frame with the price columns and the ['ema'] column once assigned. *)
Record DataFrame : Set := mkFrame {
  col_open : list float;
  col_high : list float;
  col_low : list float;
  col_close : list float;
  col_ema : option (list float)
}.

(** [len(df)]. *)
Definition df_len (df : DataFrame) : nat := length (col_close df).

(** [df['ema']]. *)
Definition get_ema (df : DataFrame) : result Series :=
  match col_ema df with
  | Some s => Ok s
  | None => Raise KeyError
  end.

(** [df['ema'] = s]. *)
Definition set_ema (df : DataFrame) (s : Series) : DataFrame :=
  mkFrame (col_open df) (col_high df) (col_low df) (col_close df) (Some s).

(** [util.df(bars)] of ib_insync: [None] for an empty list of bars, otherwise
    one row per bar. *)
Definition util_df (bars : list BarData) : option DataFrame :=
  match bars with
  | [] => None
  | _ => Some (mkFrame (bar_open <$> bars) (bar_high <$> bars)
                       (bar_low <$> bars) (bar_close <$> bars) None)
  end.

(** ** Indicators *)

(** [compute_heikin_ashi], lines 289-309. *)
Definition ha_step (df : DataFrame) (ha_close : Series) (i : nat)
    (st : Series * Series * Series) : result (Series * Series * Series) :=
  let '(ha_open, ha_high, ha_low) := st in
  let i := Z.of_nat i in
  po ← iloc ha_open (i - 1);
  pc ← iloc ha_close (i - 1);
  ha_open ← iloc_set ha_open i ((po + pc) / 2)%float;
  h ← iloc (col_high df) i;
  o ← iloc ha_open i;
  c ← iloc ha_close i;
  ha_high ← iloc_set ha_high i (max3 h o c);
  l ← iloc (col_low df) i;
  o ← iloc ha_open i;
  c ← iloc ha_close i;
  ha_low ← iloc_set ha_low i (min3 l o c);
  Ok (ha_open, ha_high, ha_low).

Definition compute_heikin_ashi (bars : list BarData) : result DataFrame :=
  match util_df bars with
  | None => Raise TypeError
  | Some df =>
      let ha_close :=
        series_div
          (series_add (series_add (series_add (col_open df) (col_high df))
                                  (col_low df)) (col_close df)) 4%float in
      let ha_open := ha_close in
      let ha_high := ha_close in
      let ha_low := ha_close in
      '(ha_open, ha_high, ha_low) ←
        for_range 1 (df_len df - 1) (ha_step df ha_close)
                  (ha_open, ha_high, ha_low);
      Ok (mkFrame ha_open ha_high ha_low ha_close None)
  end.

(** [compute_ema], lines 311-317. *)
Definition ema_step (prices : Series) (alpha : float) (i : nat)
    (ema : Series) : result Series :=
  let i := Z.of_nat i in
  p ← iloc prices i;
  e ← iloc ema (i - 1);
  iloc_set ema i (p * alpha + e * (1 - alpha))%float.

Definition compute_ema (prices : Series) (period : Z) : result Series :=
  alpha ← truediv 2 (period + 1);
  let ema := prices in
  p0 ← iloc prices 0;
  ema ← iloc_set ema 0 p0;
  for_range 1 (length prices - 1) (ema_step prices alpha) ema.

(** ** The broker and the connector *)

(** A quantity is an [int] (the configured size) or a [float] (a position
    reported by the broker). *)
Inductive num : Set :=
| Int (z : Z)
| Float (f : float).

Definition num_ne0 (n : num) : bool :=
  match n with
  | Int z => negb (z =? 0)%Z
  | Float f => negb (f =? 0)%float
  end.

Definition num_gt0 (n : num) : bool :=
  match n with
  | Int z => (0 <? z)%Z
  | Float f => (0 <? f)%float
  end.

Definition num_lt0 (n : num) : bool :=
  match n with
  | Int z => (z <? 0)%Z
  | Float f => (f <? 0)%float
  end.

Definition num_abs (n : num) : num :=
  match n with
  | Int z => Int (Z.abs z)
  | Float f => Float (abs f)
  end.

Record Contract : Set := mkContract { symbol : string }.

(** The fields of an ib_insync [Order] that the code sets or reads; an unset
    price is [None], and [ocaGroup] may hold Python's [None]. *)
Record Order : Set := mkOrder {
  orderId : Z;
  action : string;
  totalQuantity : num;
  orderType : string;
  auxPrice : option float;
  trailStopPrice : option float;
  orderRef : string;
  ocaGroup : option string;
  outsideRth : bool
}.

(** ib_insync's order constructors.  Fields the caller does not give keep
    the defaults of [Order]: id 0, empty tag and OCA group, no prices,
    [outsideRth] off. *)
Definition MarketOrder (act : string) (qty : num) (ref : string) : Order :=
  mkOrder 0 act qty "MKT" None None ref (Some EmptyString) false.

Definition StopOrder (act : string) (qty : num) (stopPrice : float)
    (ref : string) (oca : option string) : Order :=
  mkOrder 0 act qty "STP" (Some stopPrice) None ref oca false.

Definition TrailOrder (act : string) (qty : num) (aux trail : float)
    (ref : string) (oca : option string) : Order :=
  mkOrder 0 act qty "TRAIL" (Some aux) (Some trail) ref oca false.

(** [order.outsideRth = True]. *)
Definition set_outsideRth (o : Order) : Order :=
  mkOrder (orderId o) (action o) (totalQuantity o) (orderType o) (auxPrice o)
          (trailStopPrice o) (orderRef o) (ocaGroup o) true.

Record Trade : Set := mkTrade {
  trade_contract : Contract;
  order : Order;
  avgFillPrice : float          (* [trade.orderStatus.avgFillPrice] *)
}.

Record Fill : Set := mkFill {
  price : float                 (* [fill.execution.price] *)
}.

Record Position : Set := mkPosition {
  pos_contract : Contract;
  position : float
}.

(** One line of the account summary; [value] is the number that
    [float(summary.value)] reads. *)
Record AccountValue : Set := mkAccountValue {
  tag : string;
  currency : string;
  value : float
}.

(** The broker as the code sees it: the tables it queries, and the orders
    handed to [placeOrder], oldest first. *)
Record IB : Set := mkIB {
  positions : list Position;
  openTrades : list Trade;
  trades : list Trade;
  accountSummary : list AccountValue;
  placed : list (Contract * Order)
}.

(** The ['general'] section of the configuration, each key already read with
    the conversion the code applies to it ([int], [float], or none). *)
Record Config : Set := mkConfig {
  cfg_ema_period : Z;
  cfg_vix_ema_period : Z;
  cfg_condition : option string;
  cfg_size : Z;
  cfg_fixed_stoploss : float;
  cfg_trailing_stoploss : float;
  cfg_trailing_stoploss_trigger : float
}.

(** The attributes of [IBKRConnector]; the contracts are set by [start]
    before any handler is registered. *)
Record IBKRConnector : Set := mkConnector {
  config : Config;
  s1_contract : Contract;
  s1_bars : option (list BarData);
  s1_ha_bars : option DataFrame;
  s2_contract : Contract;
  s2_bars : option (list BarData);
  s2_ha_bars : option DataFrame;
  oca_group : option string;
  entry_price : option float;
  upper_pnl : float;
  lower_pnl : float
}.

(** Tasks handed to [asyncio.create_task]. *)
Inductive Task : Set :=
| Task_execute
| Task_manage_positions.

Record World : Set := mkWorld {
  self : IBKRConnector;
  ib : IB;
  tasks : list Task
}.

(** *** Attribute assignment and broker calls *)

Definition with_self (w : World) (c : IBKRConnector) : World :=
  mkWorld c (ib w) (tasks w).

Definition set_s1_bars (w : World) (v : option (list BarData)) : World :=
  let c := self w in
  with_self w (mkConnector (config c) (s1_contract c) v (s1_ha_bars c)
    (s2_contract c) (s2_bars c) (s2_ha_bars c) (oca_group c) (entry_price c)
    (upper_pnl c) (lower_pnl c)).

Definition set_s1_ha_bars (w : World) (v : option DataFrame) : World :=
  let c := self w in
  with_self w (mkConnector (config c) (s1_contract c) (s1_bars c) v
    (s2_contract c) (s2_bars c) (s2_ha_bars c) (oca_group c) (entry_price c)
    (upper_pnl c) (lower_pnl c)).

Definition set_s2_bars (w : World) (v : option (list BarData)) : World :=
  let c := self w in
  with_self w (mkConnector (config c) (s1_contract c) (s1_bars c)
    (s1_ha_bars c) (s2_contract c) v (s2_ha_bars c) (oca_group c)
    (entry_price c) (upper_pnl c) (lower_pnl c)).

Definition set_s2_ha_bars (w : World) (v : option DataFrame) : World :=
  let c := self w in
  with_self w (mkConnector (config c) (s1_contract c) (s1_bars c)
    (s1_ha_bars c) (s2_contract c) (s2_bars c) v (oca_group c)
    (entry_price c) (upper_pnl c) (lower_pnl c)).

Definition set_oca_group (w : World) (v : option string) : World :=
  let c := self w in
  with_self w (mkConnector (config c) (s1_contract c) (s1_bars c)
    (s1_ha_bars c) (s2_contract c) (s2_bars c) (s2_ha_bars c) v
    (entry_price c) (upper_pnl c) (lower_pnl c)).

Definition set_entry_price (w : World) (v : option float) : World :=
  let c := self w in
  with_self w (mkConnector (config c) (s1_contract c) (s1_bars c)
    (s1_ha_bars c) (s2_contract c) (s2_bars c) (s2_ha_bars c) (oca_group c)
    v (upper_pnl c) (lower_pnl c)).

(** [self.ib.placeOrder(contract, order)], as the log of orders handed to
    the broker.  The trade that ib_insync lists for the new order in
    [trades()] and [openTrades()] is not added here: those tables are read
    as the broker reports them. *)
Definition placeOrder (c : Contract) (o : Order) (w : World) : World :=
  let b := ib w in
  mkWorld (self w)
          (mkIB (positions b) (openTrades b) (trades b) (accountSummary b)
                (placed b ++ [(c, o)]))
          (tasks w).

(** [asyncio.create_task(...)]. *)
Definition create_task (t : Task) (w : World) : World :=
  mkWorld (self w) (ib w) (tasks w ++ [t]).

(** *** Fill handler *)

(** [on_order_filled], lines 67-81. *)
Definition on_order_filled (trade : Trade) (fill : Fill) (w : World)
    : result unit * World :=
  if String.eqb (orderRef (order trade)) "entry" then
    let filled_price := price fill in
    let w := set_entry_price w (Some filled_price) in
    let stop_loss_distance :=
      (cfg_fixed_stoploss (config (self w)) * 0.25)%float in
    let w :=
      set_oca_group w (Some ("oca_" ++ str_int (orderId (order trade)))%string) in
    let stop_order :=
      if String.eqb (action (order trade)) "BUY" then
        let stop_loss_price := (filled_price - stop_loss_distance)%float in
        Ok (StopOrder "SELL" (totalQuantity (order trade)) stop_loss_price
                      "fixed_stop_loss" (oca_group (self w)))
      else if String.eqb (action (order trade)) "SELL" then
        let stop_loss_price := (filled_price + stop_loss_distance)%float in
        Ok (StopOrder "BUY" (totalQuantity (order trade)) stop_loss_price
                      "fixed_stop_loss" (oca_group (self w)))
      else Raise UnboundLocalError in
    match stop_order with
    | Ok stop_order =>
        let stop_order := set_outsideRth stop_order in
        (Ok tt, placeOrder (s1_contract (self w)) stop_order w)
    | Raise e => (Raise e, w)
    end
  else (Ok tt, w).

(** *** Broker queries *)

(** [has_open_position], lines 83-88. *)
Definition has_open_position (w : World) : bool :=
  existsb (fun position =>
             String.eqb (symbol (pos_contract position))
                        (symbol (s1_contract (self w))))
          (positions (ib w)).

(** [has_pending_trailing_stop_order], lines 90-95. *)
Definition has_pending_trailing_stop_order (w : World) : bool :=
  existsb (fun trade => String.eqb (orderRef (order trade)) "trailing_stop_loss")
          (openTrades (ib w)).

(** [get_daily_pnl], lines 115-120. *)
Fixpoint get_daily_pnl_loop (account_summary : list AccountValue) : float :=
  match account_summary with
  | [] => 0%float
  | summary :: rest =>
      if (String.eqb (tag summary) "RealizedPnL"
          && String.eqb (currency summary) "USD")%bool
      then value summary
      else get_daily_pnl_loop rest
  end.

Definition get_daily_pnl (w : World) : float :=
  get_daily_pnl_loop (accountSummary (ib w)).

(** [is_pnl_within_limits], lines 122-124. *)
Definition is_pnl_within_limits (w : World) : bool :=
  let daily_pnl := get_daily_pnl w in
  ((lower_pnl (self w) <=? daily_pnl)%float
   && (daily_pnl <=? upper_pnl (self w))%float)%bool.

(** [get_position_size], lines 174-179. *)
Fixpoint get_position_size_loop (s1_symbol : string) (ps : list Position)
    : num :=
  match ps with
  | [] => Int 0
  | p :: rest =>
      if String.eqb (symbol (pos_contract p)) s1_symbol
      then Float (position p)
      else get_position_size_loop s1_symbol rest
  end.

Definition get_position_size (w : World) : num :=
  get_position_size_loop (symbol (s1_contract (self w))) (positions (ib w)).

(** *** Entry *)

(** The market order both rule variants place: [MarketOrder(action,
    int(config['size']), orderRef="entry")] with [outsideRth] set. *)
Definition entry_order (w : World) (act : string) : Order :=
  set_outsideRth (MarketOrder act (Int (cfg_size (config (self w)))) "entry").

(** [condition1_entry], lines 140-153. *)
Definition condition1_entry (w : World) : result unit * World :=
  match s1_ha_bars (self w) with
  | Some ha =>
      if 1 <? df_len ha then
        let read :=
          second_last_close ← iloc (col_close ha) (-2);
          second_last_ema ← (ema ← get_ema ha; iloc ema (-2));
          Ok (second_last_close, second_last_ema) in
        match read with
        | Raise e => (Raise e, w)
        | Ok (second_last_close, second_last_ema) =>
            if (second_last_ema <? second_last_close)%float then
              (Ok tt, placeOrder (s1_contract (self w)) (entry_order w "BUY") w)
            else if (second_last_close <? second_last_ema)%float then
              (Ok tt, placeOrder (s1_contract (self w)) (entry_order w "SELL") w)
            else (Ok tt, w)
        end
      else (Ok tt, w)
  | None => (Ok tt, w)
  end.

(** [condition2_entry], lines 155-172. *)
Definition condition2_entry (w : World) : result unit * World :=
  match s1_ha_bars (self w), s2_ha_bars (self w) with
  | Some ha1, Some ha2 =>
      if ((1 <? df_len ha1) && (0 <? df_len ha2))%bool then
        let read :=
          close_s1 ← iloc (col_close ha1) (-2);
          open_s1 ← iloc (col_open ha1) (-2);
          close_s2 ← iloc (col_close ha2) (-1);
          ema_s1 ← (ema ← get_ema ha1; iloc ema (-2));
          ema_s2 ← (ema ← get_ema ha2; iloc ema (-1));
          Ok (close_s1, open_s1, ema_s1, close_s2, ema_s2) in
        match read with
        | Raise e => (Raise e, w)
        | Ok (close_s1, open_s1, ema_s1, close_s2, ema_s2) =>
            if ((open_s1 <? close_s1)%float && (ema_s1 <? close_s1)%float
                && (close_s2 <? ema_s2)%float)%bool then
              (Ok tt, placeOrder (s1_contract (self w)) (entry_order w "BUY") w)
            else if ((close_s1 <? open_s1)%float && (close_s1 <? ema_s1)%float
                     && (ema_s2 <? close_s2)%float)%bool then
              (Ok tt, placeOrder (s1_contract (self w)) (entry_order w "SELL") w)
            else (Ok tt, w)
        end
      else (Ok tt, w)
  | _, _ => (Ok tt, w)
  end.

(** [entry], lines 126-138. *)
Definition entry (w : World) : result unit * World :=
  if (has_open_position w || has_pending_trailing_stop_order w)%bool then
    (Ok tt, w)
  else if negb (is_pnl_within_limits w) then (Ok tt, w)
  else
    match cfg_condition (config (self w)) with
    | Some condition =>
        if String.eqb condition "1" then condition1_entry w
        else if String.eqb condition "2" then condition2_entry w
        else (Ok tt, w)
    | None => (Ok tt, w)
    end.

(** What [entry] runs once its three checks have passed (lines 133-138). *)
Definition entry_rules (w : World) : result unit * World :=
  match cfg_condition (config (self w)) with
  | Some condition =>
      if String.eqb condition "1" then condition1_entry w
      else if String.eqb condition "2" then condition2_entry w
      else (Ok tt, w)
  | None => (Ok tt, w)
  end.

(** *** Trailing stop *)

(** [manage_positions], lines 213-264.  The arithmetic inside [try] cannot
    raise on floats, so the handler of [except] is never entered. *)
Definition manage_positions (w : World) : World :=
  let position_size := get_position_size w in
  if (num_ne0 position_size && negb (has_pending_trailing_stop_order w))%bool
  then
    match s1_bars (self w) ≫= last with
    | None => w
    | Some last_bar =>
        let recovered :=
          match entry_price (self w) with
          | Some p => Some (w, p)
          | None =>
              match last (trades (ib w)) with
              | Some last_trade =>
                  if String.eqb (symbol (trade_contract last_trade))
                                (symbol (s1_contract (self w)))
                  then Some (set_entry_price w (Some (avgFillPrice last_trade)),
                             avgFillPrice last_trade)
                  else None
              | None => None
              end
          end in
        match recovered with
        | None => w
        | Some (w, entry_price) =>
            let cfg := config (self w) in
            let trailing_stop_loss_distance :=
              (cfg_trailing_stoploss cfg * 0.25)%float in
            let trailing_stop_loss_trigger_distance :=
              (cfg_trailing_stoploss_trigger cfg * 0.25)%float in
            if num_gt0 position_size then
              let distance := (bar_high last_bar - entry_price)%float in
              if (trailing_stop_loss_trigger_distance <=? distance)%float then
                placeOrder (s1_contract (self w))
                  (set_outsideRth
                     (TrailOrder "SELL" position_size
                        trailing_stop_loss_distance
                        (bar_close last_bar - trailing_stop_loss_distance)%float
                        "trailing_stop_loss" (oca_group (self w)))) w
              else w
            else if num_lt0 position_size then
              let distance := (entry_price - bar_low last_bar)%float in
              if (trailing_stop_loss_trigger_distance <=? distance)%float then
                placeOrder (s1_contract (self w))
                  (set_outsideRth
                     (TrailOrder "BUY" (num_abs position_size)
                        trailing_stop_loss_distance
                        (bar_close last_bar + trailing_stop_loss_distance)%float
                        "trailing_stop_loss" (oca_group (self w)))) w
              else w
            else w
        end
    end
  else w.

(** *** Bar-update handlers *)

(** [df['close']] on the value of [util.df(bars)]. *)
Definition raw_close (bars : list BarData) : result Series :=
  match util_df bars with
  | Some df => Ok (col_close df)
  | None => Raise TypeError
  end.

(** [on_s1_bar_update], lines 271-282: each attribute assignment made before
    an exception stays in place. *)
Definition on_s1_bar_update (bars : list BarData) (hasNewBar : bool)
    (w : World) : result unit * World :=
  let w := set_s1_bars w (Some bars) in
  match compute_heikin_ashi bars with
  | Raise e => (Raise e, w)
  | Ok ha =>
      let w := set_s1_ha_bars w (Some ha) in
      match (close ← raw_close bars;
             compute_ema close (cfg_ema_period (config (self w)))) with
      | Raise e => (Raise e, w)
      | Ok ema =>
          let w := set_s1_ha_bars w (Some (set_ema ha ema)) in
          let w := if hasNewBar then create_task Task_execute w else w in
          (Ok tt, create_task Task_manage_positions w)
      end
  end.

(** [on_s2_bar_update], lines 284-287. *)
Definition on_s2_bar_update (bars : list BarData) (hasNewBar : bool)
    (w : World) : result unit * World :=
  let w := set_s2_bars w (Some bars) in
  match compute_heikin_ashi bars with
  | Raise e => (Raise e, w)
  | Ok ha =>
      let w := set_s2_ha_bars w (Some ha) in
      match compute_ema (col_close ha)
                        (cfg_vix_ema_period (config (self w))) with
      | Raise e => (Raise e, w)
      | Ok ema => (Ok tt, set_s2_ha_bars w (Some (set_ema ha ema)))
      end
  end.

(** The S1 part of [start], lines 48-50, on the bars returned by
    [get_historical_data]. *)
Definition start_s1 (bars : list BarData) (w : World) : result unit * World :=
  let w := set_s1_bars w (Some bars) in
  match compute_heikin_ashi bars with
  | Raise e => (Raise e, w)
  | Ok ha =>
      let w := set_s1_ha_bars w (Some ha) in
      match compute_ema (col_close ha) (cfg_ema_period (config (self w))) with
      | Raise e => (Raise e, w)
      | Ok ema => (Ok tt, set_s1_ha_bars w (Some (set_ema ha ema)))
      end
  end.

(** ** What the specification asks of the two indicators *)

(** The EMA recurrence with smoothing factor [alpha], index by index. *)
Definition ema_recurrence (prices : Series) (alpha : float) (ema : Series)
    : Prop :=
  length ema = length prices
  ∧ ema !! 0 = prices !! 0
  ∧ ∀ i p e, prices !! S i = Some p → ema !! i = Some e →
      ema !! S i = Some (p * alpha + e * (1 - alpha))%float.

(** [(open + high + low + close) / 4] of one raw bar. *)
Definition ohlc4 (b : BarData) : float :=
  ((bar_open b + bar_high b + bar_low b + bar_close b) / 4)%float.

(** The Heikin-Ashi recurrence as the code computes it: closes at every
    index, opens from index 0, highs and lows from index 1. *)
Definition ha_recurrence (bars : list BarData) (ha : DataFrame) : Prop :=
  (length (col_open ha) = length bars ∧ length (col_high ha) = length bars
   ∧ length (col_low ha) = length bars ∧ length (col_close ha) = length bars)
  ∧ (∀ i b, bars !! i = Some b → col_close ha !! i = Some (ohlc4 b))
  ∧ col_open ha !! 0 = col_close ha !! 0
  ∧ ∀ i b po pc c,
      bars !! S i = Some b →
      col_open ha !! i = Some po → col_close ha !! i = Some pc →
      col_close ha !! S i = Some c →
      let o := ((po + pc) / 2)%float in
      col_open ha !! S i = Some o
      ∧ col_high ha !! S i = Some (max3 (bar_high b) o c)
      ∧ col_low ha !! S i = Some (min3 (bar_low b) o c).

(** ** Exit and the bar-close cycle *)

(** [exit_s1_and_cancel_orders], lines 97-113.  The first loop hands the
    order of every open S1 trade to [cancelOrder]; the second places one
    market order against every S1 position of non-zero size. *)
Fixpoint cancel_loop (s1_symbol : string) (pending_orders : list Trade)
    : list Order :=
  match pending_orders with
  | [] => []
  | trade :: rest =>
      if String.eqb (symbol (trade_contract trade)) s1_symbol
      then order trade :: cancel_loop s1_symbol rest
      else cancel_loop s1_symbol rest
  end.

Fixpoint close_loop (ps : list Position) (w : World) : World :=
  match ps with
  | [] => w
  | p :: rest =>
      let w :=
        if String.eqb (symbol (pos_contract p)) (symbol (s1_contract (self w)))
        then
          if (0 <? position p)%float then
            placeOrder (s1_contract (self w))
                       (MarketOrder "SELL" (Float (position p)) EmptyString) w
          else if (position p <? 0)%float then
            placeOrder (s1_contract (self w))
                       (MarketOrder "BUY" (Float (abs (position p)))
                                    EmptyString) w
          else w
        else w in
      close_loop rest w
  end.

(** The state after the call, and the orders passed to [cancelOrder], in
    call order; every cancellation precedes every placement. *)
Definition exit_s1_and_cancel_orders (w : World) : World * list Order :=
  (close_loop (positions (ib w)) w,
   cancel_loop (symbol (s1_contract (self w))) (openTrades (ib w))).

(** What an exit rule returns: its outcome, the state, and the orders it
    cancelled. *)
Definition exit_fires (w : World) : result unit * World * list Order :=
  let '(w, cancelled) := exit_s1_and_cancel_orders w in (Ok tt, w, cancelled).

(** [condition1_exit], lines 190-200. *)
Definition condition1_exit (position_size : num) (w : World)
    : result unit * World * list Order :=
  match s1_ha_bars (self w) with
  | Some ha =>
      if 1 <? df_len ha then
        let read :=
          second_last_close ← iloc (col_close ha) (-2);
          second_last_ema ← (ema ← get_ema ha; iloc ema (-2));
          Ok (second_last_close, second_last_ema) in
        match read with
        | Raise e => (Raise e, w, [])
        | Ok (second_last_close, second_last_ema) =>
            if (num_gt0 position_size
                && (second_last_close <? second_last_ema)%float)%bool
            then exit_fires w
            else if (num_lt0 position_size
                     && (second_last_ema <? second_last_close)%float)%bool
            then exit_fires w
            else (Ok tt, w, [])
        end
      else (Ok tt, w, [])
  | None => (Ok tt, w, [])
  end.

(** [condition2_exit], lines 202-211. *)
Definition condition2_exit (position_size : num) (w : World)
    : result unit * World * list Order :=
  match s1_ha_bars (self w) with
  | Some ha =>
      if 1 <? df_len ha then
        let read :=
          close_s1 ← iloc (col_close ha) (-2);
          open_s1 ← iloc (col_open ha) (-2);
          ema_s1 ← (ema ← get_ema ha; iloc ema (-2));
          Ok (close_s1, open_s1, ema_s1) in
        match read with
        | Raise e => (Raise e, w, [])
        | Ok (close_s1, open_s1, ema_s1) =>
            if (num_gt0 position_size && (close_s1 <? ema_s1)%float
                && (close_s1 <? open_s1)%float)%bool
            then exit_fires w
            else if (num_lt0 position_size && (ema_s1 <? close_s1)%float
                     && (open_s1 <? close_s1)%float)%bool
            then exit_fires w
            else (Ok tt, w, [])
        end
      else (Ok tt, w, [])
  | None => (Ok tt, w, [])
  end.

(** [exit], lines 181-188. *)
Definition exit (w : World) : result unit * World * list Order :=
  let position_size := get_position_size w in
  match cfg_condition (config (self w)) with
  | Some condition =>
      if (String.eqb condition "1" && num_ne0 position_size)%bool
      then condition1_exit position_size w
      else if (String.eqb condition "2" && num_ne0 position_size)%bool
      then condition2_exit position_size w
      else (Ok tt, w, [])
  | None => (Ok tt, w, [])
  end.

(** [execute], lines 266-269.  [await asyncio.sleep(3)] returns control to
    the event loop: other handlers run and the broker's tables move on, which
    [during_sleep] stands for.  An exception of [exit] ends the task before
    the sleep. *)
Definition execute (during_sleep : World → World) (w : World)
    : result unit * World * list Order :=
  match exit w with
  | (Raise e, w, cancelled) => (Raise e, w, cancelled)
  | (Ok _, w, cancelled) =>
      let '(r, w) := entry (during_sleep w) in (r, w, cancelled)
  end.

(** A rule either leaves the state alone or places one entry order. *)
Definition rule_outcome (w : World) (out : result unit * World) : Prop :=
  out.2 = w
  ∨ ∃ act, (act = "BUY"%string ∨ act = "SELL"%string)
           ∧ out = (Ok tt, placeOrder (s1_contract (self w))
                                      (entry_order w act) w).

(** The market order that flattens one position line, if any: nothing for
    a line on another symbol or of size zero. *)
Definition flatten_order (s1 : Contract) (p : Position)
    : list (Contract * Order) :=
  if String.eqb (symbol (pos_contract p)) (symbol s1) then
    if (0 <? position p)%float then
      [(s1, mkOrder 0 "SELL" (Float (position p)) "MKT" None None EmptyString
                    (Some EmptyString) false)]
    else if (position p <? 0)%float then
      [(s1, mkOrder 0 "BUY" (Float (abs (position p))) "MKT" None None
                    EmptyString (Some EmptyString) false)]
    else []
  else [].

(** ** Runs of the connector *)

(** One step of a session: a handler or a scheduled coroutine runs on the
    current state (an exception ends that handler or task only), or the
    broker's tables move on; the orders already handed to the broker stay. *)
Inductive step : World → World → Prop :=
| step_s1_bar_update bars hasNewBar w :
    step w (on_s1_bar_update bars hasNewBar w).2
| step_s2_bar_update bars hasNewBar w :
    step w (on_s2_bar_update bars hasNewBar w).2
| step_order_filled trade fill w :
    step w (on_order_filled trade fill w).2
| step_exit w : step w (exit w).1.2
| step_entry w : step w (entry w).2
| step_manage_positions w : step w (manage_positions w)
| step_broker w ps open_trades all_trades summary :
    step w (mkWorld (self w)
                    (mkIB ps open_trades all_trades summary (placed (ib w)))
                    (tasks w)).

(** The states a session can reach from [w0]. *)
Inductive reachable (w0 : World) : World → Prop :=
| reachable_start : reachable w0 w0
| reachable_step w w' : reachable w0 w → step w w' → reachable w0 w'.

(** The four kinds of order the code builds, all on the S1 contract. *)
Definition known_order (s1 : Contract) (co : Contract * Order) : Prop :=
  co.1 = s1
  ∧ ((orderRef co.2 = "entry"%string ∧ orderType co.2 = "MKT"%string
      ∧ outsideRth co.2 = true)
     ∨ (orderRef co.2 = "fixed_stop_loss"%string
        ∧ orderType co.2 = "STP"%string ∧ outsideRth co.2 = true)
     ∨ (orderRef co.2 = "trailing_stop_loss"%string
        ∧ orderType co.2 = "TRAIL"%string ∧ outsideRth co.2 = true)
     ∨ (orderRef co.2 = EmptyString ∧ orderType co.2 = "MKT"%string
        ∧ outsideRth co.2 = false)).

(** What no step undoes: the configuration, the contracts and the PnL
    limits stay, a recorded entry price or OCA group is never cleared, and
    the order log only grows, by orders of the four kinds. *)
Definition grows (w w' : World) : Prop :=
  (config (self w') = config (self w)
   ∧ s1_contract (self w') = s1_contract (self w)
   ∧ s2_contract (self w') = s2_contract (self w)
   ∧ upper_pnl (self w') = upper_pnl (self w)
   ∧ lower_pnl (self w') = lower_pnl (self w))
  ∧ (entry_price (self w) ≠ None → entry_price (self w') ≠ None)
  ∧ (oca_group (self w) ≠ None → oca_group (self w') ≠ None)
  ∧ ∃ new, placed (ib w') = placed (ib w) ++ new
           ∧ Forall (known_order (s1_contract (self w))) new.

(** A frame whose columns, the ['ema'] column included once it is there,
    have one value per row. *)
Definition frame_aligned (df : DataFrame) : Prop :=
  length (col_open df) = df_len df
  ∧ length (col_high df) = df_len df
  ∧ length (col_low df) = df_len df
  ∧ ∀ ema, col_ema df = Some ema → length ema = df_len df.

Definition frames_aligned (w : World) : Prop :=
  (∀ df, s1_ha_bars (self w) = Some df → frame_aligned df)
  ∧ (∀ df, s2_ha_bars (self w) = Some df → frame_aligned df).

(** ** Sample data *)

Module Sample.

Definition MNQ : Contract := mkContract "MNQ".
Definition VIX : Contract := mkContract "VIX".

(** Three raw bars and the frame the S1 handler builds from them. *)
Definition bars : list BarData :=
  [mkBar 1 4 0 3; mkBar 2 5 1 4; mkBar 2 5 1 8]%float.

Definition frame (ema : list float) : DataFrame :=
  mkFrame [2; 2; 2.5]%float [2; 5; 5]%float [2; 1; 1]%float
          [2; 3; 4]%float (Some ema).

Definition ema_raw : list float := [3; 3.5; 5.75]%float.
Definition ema_ha : list float := [2; 2.5; 3.25]%float.
Definition ema_level : list float := [2; 3; 3.5]%float.

(** condition 1, size 2, fixed stop 8 ticks, trailing stop 4 ticks armed
    after 6 ticks, EMA period 3 on both instruments. *)
Definition cfg : Config := mkConfig 3 3 (Some "1"%string) 2 8 4 6.

(** Daily limits [-100, 100]. *)
Definition connector (ha : option DataFrame) (ep : option float)
    : IBKRConnector :=
  mkConnector cfg MNQ (Some bars) ha VIX None None None ep
              100%float (-100)%float.

Definition summary (pnl : float) : list AccountValue :=
  [mkAccountValue "NetLiquidation" "USD" 50000;
   mkAccountValue "RealizedPnL" "USD" pnl].

Definition summary_without_pnl : list AccountValue :=
  [mkAccountValue "NetLiquidation" "USD" 50000;
   mkAccountValue "RealizedPnL" "EUR" (-500)].

(** No position, no open order. *)
Definition flat (ema : list float) (pnl : float) : World :=
  mkWorld (connector (Some (frame ema)) None)
          (mkIB [] [] [] (summary pnl) []) [].

Definition flat_without_pnl : World :=
  mkWorld (connector (Some (frame ema_raw)) None)
          (mkIB [] [] [] summary_without_pnl []) [].

(** Before the first bar update. *)
Definition fresh : World :=
  mkWorld (mkConnector cfg MNQ None None VIX None None None None
                       100%float (-100)%float)
          (mkIB [] [] [] (summary 0) []) [].

(** The fill of a BUY (SELL) entry order of size 2 with id 17 at 100.5. *)
Definition entry_trade (act : string) : Trade :=
  mkTrade MNQ (mkOrder 17 act (Int 2) "MKT" None None "entry"
                       (Some EmptyString) true) 100.5.
Definition entry_fill : Fill := mkFill 100.5.

(** Long 2 contracts from 3.0, last bar high 5.0: 2.0 in favour, past the
    trigger distance 1.5. *)
Definition trailing_order : Order :=
  mkOrder 21 "SELL" (Float 2) "TRAIL" (Some 1%float) (Some 7%float)
          "trailing_stop_loss" (Some "oca_17"%string) true.

Definition long (open_trades : list Trade) : World :=
  mkWorld (connector (Some (frame ema_raw)) (Some 3%float))
          (mkIB [mkPosition MNQ 2] open_trades [] (summary 0) []) [].

End Sample.

(** ** More sample data *)

(** Sample states with both instruments loaded: the S1 frame of [Sample] and
    a two-row S2 frame closing at 4. *)
Definition Sample_both (ema1 ema2 : list float) : World :=
  mkWorld (mkConnector (mkConfig 3 3 (Some "2"%string) 2 8 4 6) Sample.MNQ
                       (Some Sample.bars) (Some (Sample.frame ema1))
                       Sample.VIX None
                       (Some (mkFrame [4; 4]%float [5; 5]%float [3; 3]%float
                                      [4; 4]%float (Some ema2)))
                       None None 100%float (-100)%float)
          (mkIB [] [] [] (Sample.summary 0) []) [].

(** A long position of 2 from an earlier session: no entry price recorded,
    and the last trade is the resting stop order, not yet filled. *)
Definition Sample_resumed (last_symbol : string) : World :=
  mkWorld (Sample.connector (Some (Sample.frame Sample.ema_raw)) None)
          (mkIB [mkPosition Sample.MNQ 2] []
                [Sample.entry_trade "BUY";
                 mkTrade (mkContract last_symbol)
                         (mkOrder 18 "SELL" (Int 2) "STP" (Some 98.5%float) None
                                  "fixed_stop_loss" (Some "oca_17"%string) true)
                         0]
                (Sample.summary 0) []) [].

(** Long 2 contracts with a bearish second-to-last Heikin-Ashi row: open
    3.5, close 3, EMA 3.5. *)
Definition Sample_bearish (open_trades : list Trade) : World :=
  mkWorld (mkConnector (mkConfig 3 3 (Some "2"%string) 2 8 4 6) Sample.MNQ
                       (Some Sample.bars)
                       (Some (mkFrame [2; 3.5; 2.5]%float [2; 5; 5]%float
                                      [2; 1; 1]%float [2; 3; 4]%float
                                      (Some Sample.ema_raw)))
                       Sample.VIX None None None (Some 3%float)
                       100%float (-100)%float)
          (mkIB [mkPosition Sample.MNQ 2] open_trades [] (Sample.summary 0) [])
          [].

(** Long 2 contracts, with a frame that never received its ['ema'] column. *)
Definition Sample_no_ema : World :=
  mkWorld (Sample.connector
             (Some (mkFrame [2; 2; 2.5]%float [2; 5; 5]%float [2; 1; 1]%float
                            [2; 3; 4]%float None))
             (Some 3%float))
          (mkIB [mkPosition Sample.MNQ 2] [] [] (Sample.summary 0) []) [].

(** A short session from [Sample.fresh]: the first S1 bar update, the entry
    pass it schedules (a SELL, the EMA being that of the raw closes), and the
    fill of that order. *)
Definition Sample_session : World :=
  (on_order_filled (Sample.entry_trade "SELL") Sample.entry_fill
     (entry (on_s1_bar_update Sample.bars true Sample.fresh).2).2).2.

(** A summary with two realized-PnL lines in USD after two other lines. *)
Definition Sample_two_accounts : World :=
  mkWorld (self Sample.fresh)
          (mkIB [] [] []
                (Sample.summary_without_pnl
                   ++ mkAccountValue "RealizedPnL" "USD" (-50)
                   :: [mkAccountValue "RealizedPnL" "USD" 900]) [])
          [].

(** A position opened and stopped out.  [Sample_filled] is the state after
    the fill of a BUY entry order: entry price 100.5 and group [oca_17] are
    recorded.  [Sample_stopped_out] follows it through the fill of the fixed
    stop, the broker reporting the position gone, the next S1 bar update, and
    the passes that update schedules. *)
Definition Sample_filled : World :=
  (on_order_filled (Sample.entry_trade "BUY") Sample.entry_fill
     (Sample.flat Sample.ema_ha 0)).2.

Definition Sample_stop_fill (w : World) : World :=
  (on_order_filled
     (mkTrade Sample.MNQ
        (mkOrder 18 "SELL" (Int 2) "STP" (Some 98.5%float) None
                 "fixed_stop_loss" (Some "oca_17"%string) true) 98.5)
     (mkFill 98.5) w).2.

Definition Sample_stopped_out : World :=
  let stopped := Sample_stop_fill Sample_filled in
  let reported :=
    mkWorld (self stopped)
            (mkIB [] [] [Sample.entry_trade "BUY"] (Sample.summary (-4))
                  (placed (ib stopped)))
            (tasks stopped) in
  let updated := (on_s1_bar_update Sample.bars true reported).2 in
  manage_positions (entry (exit updated).1.2).2.

(** ** Series and loop lemmas *)

Section Series_facts.

Implicit Types (s : list float) (i : nat) (v : float).

Lemma iloc_nat s i v : s !! i = Some v → iloc s (Z.of_nat i) = Ok v.
Proof.
  intros H. pose proof (lookup_lt_Some _ _ _ H) as Hlt.
  unfold iloc.
  replace (Z.of_nat i <? 0)%Z with false by (symmetry; apply Z.ltb_ge; lia).
  replace (0 <=? Z.of_nat i)%Z with true by (symmetry; apply Z.leb_le; lia).
  replace (Z.of_nat i <? Z.of_nat (length s))%Z with true
    by (symmetry; apply Z.ltb_lt; lia).
  simpl. rewrite Nat2Z.id, H. reflexivity.
Qed.

Lemma iloc_pred s i v :
  s !! i = Some v → iloc s (Z.of_nat (S i) - 1) = Ok v.
Proof.
  intros H. replace (Z.of_nat (S i) - 1)%Z with (Z.of_nat i) by lia.
  by apply iloc_nat.
Qed.

Lemma iloc_set_nat s i v :
  i < length s → iloc_set s (Z.of_nat i) v = Ok (<[i := v]> s).
Proof.
  intros Hlt. unfold iloc_set.
  replace (Z.of_nat i <? 0)%Z with false by (symmetry; apply Z.ltb_ge; lia).
  replace (0 <=? Z.of_nat i)%Z with true by (symmetry; apply Z.leb_le; lia).
  replace (Z.of_nat i <? Z.of_nat (length s))%Z with true
    by (symmetry; apply Z.ltb_lt; lia).
  simpl. by rewrite Nat2Z.id.
Qed.

(** [s.iloc[-k]] reads position [len(s) - k]. *)
Lemma iloc_from_end s (k : nat) v :
  0 < k → k ≤ length s → s !! (length s - k) = Some v →
  iloc s (- Z.of_nat k) = Ok v.
Proof.
  intros Hk Hle H. unfold iloc.
  replace (- Z.of_nat k <? 0)%Z with true by (symmetry; apply Z.ltb_lt; lia).
  replace (- Z.of_nat k + Z.of_nat (length s))%Z
    with (Z.of_nat (length s - k)) by lia.
  replace (0 <=? Z.of_nat (length s - k))%Z with true
    by (symmetry; apply Z.leb_le; lia).
  replace (Z.of_nat (length s - k) <? Z.of_nat (length s))%Z with true
    by (symmetry; apply Z.ltb_lt; lia).
  simpl. rewrite Nat2Z.id, H. reflexivity.
Qed.

End Series_facts.

(** A loop over [range(lo, lo + n)] whose body keeps an invariant and never
    raises runs to the end and establishes the invariant at [lo + n]. *)
Lemma for_range_invariant {S : Type} (P : nat → S → Prop)
    (body : nat → S → result S) (n lo : nat) (s : S) :
  P lo s →
  (∀ i t, lo ≤ i < lo + n → P i t →
          ∃ t', body i t = Ok t' ∧ P (Datatypes.S i) t') →
  ∃ t, for_range lo n body s = Ok t ∧ P (lo + n) t.
Proof.
  revert lo s. induction n as [|n IH]; intros lo s H0 Hstep; simpl.
  - exists s. by rewrite Nat.add_0_r.
  - destruct (Hstep lo s ltac:(lia) H0) as (s' & -> & H1). simpl.
    destruct (IH (Datatypes.S lo) s' H1) as (t & Ht & HP).
    + intros i t Hi. apply Hstep. lia.
    + exists t. split; [exact Ht|].
      by replace (lo + Datatypes.S n) with (Datatypes.S lo + n) by lia.
Qed.

(** ** The EMA smoother *)

Lemma ema_step_invariant (prices : list float) (alpha : float) (i : nat)
    (t : list float) :
  1 ≤ i < length prices →
  length t = length prices →
  ∃ p e,
    prices !! i = Some p ∧ t !! (i - 1) = Some e
    ∧ ema_step prices alpha i t
      = Ok (<[i := (p * alpha + e * (1 - alpha))%float]> t).
Proof.
  intros Hi Hlen.
  destruct (lookup_lt_is_Some_2 prices i ltac:(lia)) as [p Hp].
  destruct (lookup_lt_is_Some_2 t (i - 1) ltac:(lia)) as [e He].
  exists p, e. split; [exact Hp|]. split; [exact He|].
  unfold ema_step. rewrite (iloc_nat _ _ _ Hp). simpl.
  destruct i as [|j]; [lia|].
  replace (S j - 1) with j in He by lia.
  rewrite (iloc_pred _ _ _ He). simpl.
  apply iloc_set_nat. lia.
Qed.

Lemma compute_ema_from_alpha (prices : list float) (period : Z) (alpha : float) :
  prices ≠ [] →
  truediv 2 (period + 1) = Ok alpha →
  ∃ ema, compute_ema prices period = Ok ema ∧ ema_recurrence prices alpha ema.
Proof.
  intros Hne Halpha. unfold compute_ema. rewrite Halpha. simpl.
  destruct prices as [|p0 rest]; [done|].
  pose proof (iloc_nat (p0 :: rest) 0 p0 eq_refl) as E0.
  change (Z.of_nat 0) with 0%Z in E0. rewrite E0. simpl. clear E0.
  set (prices := p0 :: rest).
  pose (P := fun (k : nat) (t : list float) =>
    length t = length prices ∧ t !! 0 = prices !! 0
    ∧ ∀ i p e, S i < k → prices !! S i = Some p → t !! i = Some e →
        t !! S i = Some (p * alpha + e * (1 - alpha))%float).
  destruct (for_range_invariant P (ema_step prices alpha) (length rest - 0) 1 prices)
    as (ema & Hrun & Hlen & H0 & Hrec).
  - repeat split; intros; lia.
  - intros i t Hi (Hlen & H0 & Hrec).
    destruct (ema_step_invariant prices alpha i t) as (p & e & Hp & He & ->).
    { subst prices. simpl. lia. } { exact Hlen. }
    eexists. split; [reflexivity|]. repeat split.
    + by rewrite length_insert.
    + rewrite list_lookup_insert_ne by lia. exact H0.
    + intros j q d Hj Hq Hd.
      rewrite list_lookup_insert_ne in Hd by lia.
      destruct (decide (S j = i)) as [<-|Hneq].
      * rewrite list_lookup_insert_eq by (rewrite Hlen; subst prices; simpl in *; lia).
        replace (S j - 1) with j in He by lia. congruence.
      * rewrite list_lookup_insert_ne by lia. apply Hrec; [lia|done..].
  - exists ema. split; [exact Hrun|]. repeat split; [exact Hlen|exact H0|].
    intros i p e Hp He. apply Hrec; [|done..].
    apply lookup_lt_Some in Hp. subst prices. simpl in *. lia.
Qed.

(** ** The Heikin-Ashi transform *)

(** The [ha_close] Series of [compute_heikin_ashi]. *)
Lemma ha_close_lookup (bars : list BarData) (i : nat) (b : BarData) :
  bars !! i = Some b →
  series_div
    (series_add (series_add (series_add (bar_open <$> bars) (bar_high <$> bars))
                            (bar_low <$> bars)) (bar_close <$> bars)) 4%float
    !! i = Some (ohlc4 b).
Proof.
  intros H. unfold series_div, series_add.
  rewrite list_lookup_fmap, !lookup_zip_with, !list_lookup_fmap, H.
  reflexivity.
Qed.

Lemma ha_close_length (bars : list BarData) :
  length (series_div
    (series_add (series_add (series_add (bar_open <$> bars) (bar_high <$> bars))
                            (bar_low <$> bars)) (bar_close <$> bars)) 4%float)
  = length bars.
Proof.
  unfold series_div, series_add.
  rewrite length_fmap, !length_zip_with, !length_fmap. lia.
Qed.

Lemma ha_step_invariant (df : DataFrame) (hc o h l : list float) (i : nat) :
  1 ≤ i < length hc →
  length (col_high df) = length hc → length (col_low df) = length hc →
  length o = length hc → length h = length hc → length l = length hc →
  ∃ po pc hi lo c,
    o !! (i - 1) = Some po ∧ hc !! (i - 1) = Some pc
    ∧ col_high df !! i = Some hi ∧ col_low df !! i = Some lo
    ∧ hc !! i = Some c
    ∧ let v := ((po + pc) / 2)%float in
      ha_step df hc i (o, h, l)
      = Ok (<[i := v]> o, <[i := max3 hi v c]> h, <[i := min3 lo v c]> l).
Proof.
  intros Hi Hdh Hdl Ho Hh Hl.
  destruct (lookup_lt_is_Some_2 o (i - 1) ltac:(lia)) as [po Hpo].
  destruct (lookup_lt_is_Some_2 hc (i - 1) ltac:(lia)) as [pc Hpc].
  destruct (lookup_lt_is_Some_2 (col_high df) i ltac:(lia)) as [hi Hhi].
  destruct (lookup_lt_is_Some_2 (col_low df) i ltac:(lia)) as [lo Hlo].
  destruct (lookup_lt_is_Some_2 hc i ltac:(lia)) as [c Hc].
  exists po, pc, hi, lo, c. repeat (split; [done|]).
  intros v. subst v. unfold ha_step.
  destruct i as [|j]; [lia|].
  replace (S j - 1) with j in Hpo, Hpc by lia.
  rewrite (iloc_pred _ _ _ Hpo). run_bind.
  rewrite (iloc_pred _ _ _ Hpc). run_bind.
  rewrite (iloc_set_nat o (S j)) by lia. run_bind.
  rewrite (iloc_nat _ _ _ Hhi). run_bind.
  assert (Hv : <[S j := ((po + pc) / 2)%float]> o !! S j
               = Some ((po + pc) / 2)%float)
    by (apply list_lookup_insert_eq; lia).
  rewrite (iloc_nat _ _ _ Hv). run_bind.
  rewrite (iloc_nat _ _ _ Hc). run_bind.
  rewrite (iloc_set_nat h (S j)) by lia. run_bind.
  rewrite (iloc_nat _ _ _ Hlo). run_bind.
  rewrite (iloc_set_nat l (S j)) by lia. run_bind.
  reflexivity.
Qed.

Lemma compute_heikin_ashi_ok (bars : list BarData) :
  bars ≠ [] →
  ∃ ha, compute_heikin_ashi bars = Ok ha
        ∧ ha_recurrence bars ha
        ∧ col_high ha !! 0 = col_close ha !! 0
        ∧ col_low ha !! 0 = col_close ha !! 0
        ∧ col_ema ha = None.
Proof.
  intros Hne. unfold compute_heikin_ashi.
  destruct bars as [|b0 rest] eqn:Ebars; [done|]. rewrite <- Ebars.
  assert (Hdf : util_df bars
    = Some (mkFrame (bar_open <$> bars) (bar_high <$> bars)
                    (bar_low <$> bars) (bar_close <$> bars) None))
    by (rewrite Ebars; reflexivity).
  rewrite Hdf. cbn [col_open col_high col_low col_close df_len].
  set (df := mkFrame _ _ _ _ _).
  set (hc := series_div _ _).
  assert (Hhc : length hc = length bars) by apply ha_close_length.
  assert (Hclose : ∀ i b, bars !! i = Some b → hc !! i = Some (ohlc4 b))
    by apply ha_close_lookup.
  pose (P := fun (k : nat) (st : list float * list float * list float) =>
    let '(o, h, l) := st in
    (length o = length hc ∧ length h = length hc ∧ length l = length hc)
    ∧ (o !! 0 = hc !! 0 ∧ h !! 0 = hc !! 0 ∧ l !! 0 = hc !! 0)
    ∧ ∀ i b po pc c, S i < k →
        bars !! S i = Some b → o !! i = Some po → hc !! i = Some pc →
        hc !! S i = Some c →
        o !! S i = Some ((po + pc) / 2)%float
        ∧ h !! S i = Some (max3 (bar_high b) ((po + pc) / 2)%float c)
        ∧ l !! S i = Some (min3 (bar_low b) ((po + pc) / 2)%float c)).
  destruct (for_range_invariant P (ha_step df hc)
              (length (bar_close <$> bars) - 1) 1 (hc, hc, hc))
    as ([[o h] l] & Hrun & Hlens & H0 & Hrec).
  - repeat split; intros; lia.
  - intros i [[o h] l] Hi ((Ho & Hh & Hl) & (Ho0 & Hh0 & Hl0) & Hrec).
    rewrite length_fmap in Hi.
    destruct (ha_step_invariant df hc o h l i)
      as (po & pc & hi & lo & c & Hpo & Hpc & Hhi & Hlo & Hc & Hstep);
      try done; try lia.
    { subst df. simpl. rewrite length_fmap. lia. }
    { subst df. simpl. rewrite length_fmap. lia. }
    cbv zeta in Hstep. rewrite Hstep. eexists. split; [reflexivity|].
    split; [by rewrite !length_insert|].
    split; [by rewrite !list_lookup_insert_ne by lia|].
    intros j b qo qc d Hj Hb Hqo Hqc Hd.
    rewrite list_lookup_insert_ne in Hqo by lia.
    destruct (decide (S j = i)) as [<-|Hneq].
    + rewrite !list_lookup_insert_eq by lia.
      replace (S j - 1) with j in Hpo, Hpc by lia.
      subst df. simpl in Hhi, Hlo. rewrite list_lookup_fmap, Hb in Hhi, Hlo.
      simpl in Hhi, Hlo. by simplify_eq.
    + rewrite !list_lookup_insert_ne by lia. apply Hrec; [lia|done..].
  - change (df_len df) with (length (bar_close <$> bars)). rewrite Hrun.
    simpl. eexists. split; [reflexivity|].
    destruct Hlens as (Ho & Hh & Hl). destruct H0 as (Ho0 & Hh0 & Hl0).
    unfold ha_recurrence. simpl.
    split; [|split; [exact Hh0|split; [exact Hl0|reflexivity]]].
    split; [repeat split; congruence|].
    split; [exact Hclose|]. split; [exact Ho0|].
    intros i b po pc c Hb Hpo Hpc Hc.
    apply lookup_lt_Some in Hb as Hlt.
    rewrite length_fmap in Hrec.
    apply (Hrec i b po pc c); [lia|done..].
Qed.

(** ** Floats and strings *)

(** Swapping the arguments of a float comparison reverses its outcome. *)
Lemma SFcompare_swap (a b : spec_float) :
  SFcompare b a = option_map CompOpp (SFcompare a b).
Proof.
  destruct a as [sa|sa| |sa ma ea], b as [sb|sb| |sb mb eb]; simpl;
    try done; try (destruct sa; done); try (destruct sb; done);
    try (destruct sa, sb; done).
  change PosDef.Pos.compare_cont with Pos.compare_cont.
  change (Pos.compare_cont Eq) with Pos.compare.
  rewrite (Z.compare_antisym ea eb), (Pos.compare_antisym ma mb).
  destruct sa, sb; try done;
    destruct (ea ?= eb)%Z; simpl; try done;
    destruct (ma ?= mb)%positive; done.
Qed.

(** Two floats that compare equal are not strictly ordered either way. *)
Lemma float_eqb_not_ltb (x y : float) :
  (x =? y)%float = true → (x <? y)%float = false ∧ (y <? x)%float = false.
Proof.
  rewrite FloatAxioms.eqb_spec, !ltb_spec. unfold SFeqb, SFltb.
  rewrite (SFcompare_swap (Prim2SF x) (Prim2SF y)).
  by destruct (SFcompare (Prim2SF x) (Prim2SF y)) as [[| |]|].
Qed.

(** [<] on floats is asymmetric. *)
Lemma float_ltb_asym (x y : float) :
  (x <? y)%float = true → (y <? x)%float = false.
Proof.
  rewrite !ltb_spec. unfold SFltb.
  rewrite (SFcompare_swap (Prim2SF x) (Prim2SF y)).
  by destruct (SFcompare (Prim2SF x) (Prim2SF y)) as [[| |]|].
Qed.


(** ** Claims about the EMA smoother *)

Lemma truediv_nonzero (a b : Z) :
  b ≠ 0%Z → ∃ q, truediv a b = Ok q.
Proof.
  intros Hb. unfold truediv.
  destruct (Z.eqb_spec b 0) as [?|_]; [done|]. by eexists.
Qed.

(** C7: for a non-empty price sequence and an integer period of at least 1,
    [compute_ema] returns a sequence of the same length whose first value is
    the first price and whose value at every later index [i] is
    [price[i] * alpha + ema[i-1] * (1 - alpha)], with [alpha = 2 / (period + 1)]. *)
Theorem compute_ema_recurrence (prices : list float) (period : Z) :
  prices ≠ [] →
  (1 ≤ period)%Z →
  ∃ alpha ema,
    truediv 2 (period + 1) = Ok alpha
    ∧ compute_ema prices period = Ok ema
    ∧ length ema = length prices
    ∧ ema !! 0 = prices !! 0
    ∧ ∀ i p e, prices !! S i = Some p → ema !! i = Some e →
        ema !! S i = Some (p * alpha + e * (1 - alpha))%float.
Proof.
  intros Hne Hperiod.
  destruct (truediv_nonzero 2 (period + 1)) as [alpha Halpha]; [lia|].
  destruct (compute_ema_from_alpha prices period alpha Hne Halpha)
    as (ema & Hema & Hlen & H0 & Hrec).
  by exists alpha, ema.
Qed.

Lemma compute_ema_recurrence_witness :
  truediv 2 (3 + 1) = Ok 0.5%float
  ∧ compute_ema [2; 3; 4]%float 3 = Ok [2; 2.5; 3.25]%float
  ∧ ∃ alpha ema,
    truediv 2 (3 + 1) = Ok alpha
    ∧ compute_ema [2; 3; 4]%float 3 = Ok ema
    ∧ length ema = length [2; 3; 4]%float
    ∧ ema !! 0 = [2; 3; 4]%float !! 0
    ∧ ∀ i p e, [2; 3; 4]%float !! S i = Some p → ema !! i = Some e →
        ema !! S i = Some (p * alpha + e * (1 - alpha))%float.
Proof.
  split; [vm_compute; reflexivity|]. split; [vm_compute; reflexivity|].
  apply (compute_ema_recurrence [2; 3; 4]%float 3); [discriminate | lia].
Defined.

(** C3, as stated, fails: with period 0 the smoother does not fail, it
    returns the series computed with [alpha = 2]. *)
Lemma compute_ema_period_0_not_rejected :
  (0 < 1)%Z
  ∧ compute_ema [1; 2; 3]%float 0 = Ok [1; 3; 3]%float
  ∧ ¬ ∃ e, compute_ema [1; 2; 3]%float 0 = Raise e.
Proof.
  split; [lia|]. split; [vm_compute; reflexivity|].
  intros [e He]. vm_compute in He. discriminate He.
Qed.

(** C3, amended: [compute_ema] never checks its period.  With a period
    below 1 it fails only through the arithmetic it attempts: period -1
    makes [2 / (period + 1)] a division by zero, an empty price sequence has
    no first price, and every other input is smoothed with
    [alpha = 2 / (period + 1)] like a valid one. *)
Theorem compute_ema_period_below_1 (prices : list float) (period : Z) :
  (period < 1)%Z →
  (period = (-1)%Z → compute_ema prices period = Raise ZeroDivisionError)
  ∧ (period ≠ (-1)%Z → prices = [] →
       compute_ema prices period = Raise IndexError)
  ∧ (period ≠ (-1)%Z → prices ≠ [] →
       ∃ alpha ema,
         truediv 2 (period + 1) = Ok alpha
         ∧ compute_ema prices period = Ok ema
         ∧ ema_recurrence prices alpha ema).
Proof.
  intros _. split; [|split].
  - intros ->. reflexivity.
  - intros Hp ->.
    destruct (truediv_nonzero 2 (period + 1)) as [alpha Halpha]; [lia|].
    unfold compute_ema. rewrite Halpha. reflexivity.
  - intros Hp Hne.
    destruct (truediv_nonzero 2 (period + 1)) as [alpha Halpha]; [lia|].
    destruct (compute_ema_from_alpha prices period alpha Hne Halpha)
      as (ema & Hema & Hrec).
    by exists alpha, ema.
Qed.

Lemma compute_ema_period_below_1_witness :
  compute_ema [1; 2; 3]%float (-1) = Raise ZeroDivisionError
  ∧ compute_ema [] (-5) = Raise IndexError
  ∧ ∃ alpha ema,
      truediv 2 (0 + 1) = Ok alpha
      ∧ compute_ema [1; 2; 3]%float 0 = Ok ema
      ∧ ema_recurrence [1; 2; 3]%float alpha ema.
Proof.
  split; [|split].
  - apply (compute_ema_period_below_1 [1; 2; 3]%float (-1)); [lia | reflexivity].
  - apply (compute_ema_period_below_1 [] (-5)); [lia | lia | reflexivity].
  - apply (compute_ema_period_below_1 [1; 2; 3]%float 0);
      [lia | lia | discriminate].
Defined.

(** ** Claims about the Heikin-Ashi transform *)

(** C6: for [n ≥ 1] raw bars, [compute_heikin_ashi] returns [n] rows with
    [ha_close[i] = (open[i] + high[i] + low[i] + close[i]) / 4] at every
    index, [ha_open[0] = ha_close[0]], and at every index [i ≥ 1]
    [ha_open[i] = (ha_open[i-1] + ha_close[i-1]) / 2],
    [ha_high[i] = max(high[i], ha_open[i], ha_close[i])] and
    [ha_low[i] = min(low[i], ha_open[i], ha_close[i])]; computing it again
    from the same bars gives the same frame. *)
Theorem compute_heikin_ashi_recurrence (bars : list BarData) :
  1 ≤ length bars →
  ∃ ha,
    compute_heikin_ashi bars = Ok ha
    ∧ (length (col_open ha) = length bars
       ∧ length (col_high ha) = length bars
       ∧ length (col_low ha) = length bars
       ∧ length (col_close ha) = length bars)
    ∧ (∀ i b, bars !! i = Some b →
         col_close ha !! i
         = Some ((bar_open b + bar_high b + bar_low b + bar_close b) / 4)%float)
    ∧ col_open ha !! 0 = col_close ha !! 0
    ∧ (∀ i b po pc c,
         bars !! S i = Some b →
         col_open ha !! i = Some po → col_close ha !! i = Some pc →
         col_close ha !! S i = Some c →
         col_open ha !! S i = Some ((po + pc) / 2)%float
         ∧ col_high ha !! S i
           = Some (max3 (bar_high b) ((po + pc) / 2)%float c)
         ∧ col_low ha !! S i
           = Some (min3 (bar_low b) ((po + pc) / 2)%float c))
    ∧ (∀ again, compute_heikin_ashi bars = Ok again → again = ha).
Proof.
  intros Hn.
  destruct (compute_heikin_ashi_ok bars) as (ha & Hha & Hrec & _).
  { intros ->. simpl in Hn. lia. }
  exists ha. destruct Hrec as (Hlen & Hclose & Hopen0 & Hstep).
  split; [exact Hha|]. split; [exact Hlen|]. split; [exact Hclose|].
  split; [exact Hopen0|]. split; [exact Hstep|].
  intros again Hagain. congruence.
Qed.

Lemma compute_heikin_ashi_recurrence_witness :
  compute_heikin_ashi Sample.bars
  = Ok (mkFrame [2; 2; 2.5]%float [2; 5; 5]%float [2; 1; 1]%float
                [2; 3; 4]%float None)
  ∧ ∃ ha,
      compute_heikin_ashi Sample.bars = Ok ha
      ∧ (length (col_open ha) = 3 ∧ length (col_high ha) = 3
         ∧ length (col_low ha) = 3 ∧ length (col_close ha) = 3)
      ∧ (∀ i b, Sample.bars !! i = Some b →
           col_close ha !! i
           = Some ((bar_open b + bar_high b + bar_low b + bar_close b) / 4)%float)
      ∧ col_open ha !! 0 = col_close ha !! 0
      ∧ (∀ i b po pc c,
           Sample.bars !! S i = Some b →
           col_open ha !! i = Some po → col_close ha !! i = Some pc →
           col_close ha !! S i = Some c →
           col_open ha !! S i = Some ((po + pc) / 2)%float
           ∧ col_high ha !! S i
             = Some (max3 (bar_high b) ((po + pc) / 2)%float c)
           ∧ col_low ha !! S i
             = Some (min3 (bar_low b) ((po + pc) / 2)%float c))
      ∧ (∀ again, compute_heikin_ashi Sample.bars = Ok again → again = ha).
Proof.
  split; [vm_compute; reflexivity|].
  apply (compute_heikin_ashi_recurrence Sample.bars). simpl. lia.
Defined.

(** C2: the first Heikin-Ashi row.  Its open and close are
    [(o + h + l + c) / 4] as claimed, but its high and low are that same
    average, not the raw high and low: the loop that takes [max] and [min]
    with the raw prices starts at index 1.  For the bar
    [{open 1, high 4, low 0, close 3}] the row is [{2, 2, 2, 2}], where the
    claim has high 4 and low 0. *)
Theorem compute_heikin_ashi_first_row :
  (∀ b rest, ∃ ha,
     compute_heikin_ashi (b :: rest) = Ok ha
     ∧ col_open ha !! 0 = Some (ohlc4 b)
     ∧ col_close ha !! 0 = Some (ohlc4 b)
     ∧ col_high ha !! 0 = Some (ohlc4 b)
     ∧ col_low ha !! 0 = Some (ohlc4 b))
  ∧ compute_heikin_ashi [mkBar 1 4 0 3]
    = Ok (mkFrame [2]%float [2]%float [2]%float [2]%float None)
  ∧ (2 =? 4)%float = false
  ∧ (2 =? 0)%float = false.
Proof.
  split; [|by vm_compute].
  intros b rest.
  destruct (compute_heikin_ashi_ok (b :: rest)) as (ha & Hha & Hrec & Hh & Hl & _);
    [done|].
  destruct Hrec as (_ & Hclose & Hopen & _).
  specialize (Hclose 0 b eq_refl).
  exists ha. rewrite Hh, Hl, Hopen. done.
Qed.

(** ** Claims about the bar-update handlers *)

(** Whatever the bars, the S1 handler smooths the raw closes. *)
Lemma on_s1_bar_update_smooths_raw_close (bars : list BarData)
    (hasNewBar : bool) (w : World) :
  bars ≠ [] →
  cfg_ema_period (config (self w)) ≠ (-1)%Z →
  ∃ ha ema w',
    on_s1_bar_update bars hasNewBar w = (Ok tt, w')
    ∧ compute_heikin_ashi bars = Ok ha
    ∧ compute_ema (bar_close <$> bars) (cfg_ema_period (config (self w)))
      = Ok ema
    ∧ s1_bars (self w') = Some bars
    ∧ s1_ha_bars (self w') = Some (set_ema ha ema)
    ∧ length ema = df_len (set_ema ha ema).
Proof.
  intros Hne Hperiod.
  destruct (compute_heikin_ashi_ok bars Hne) as (ha & Hha & Hrec & _).
  destruct Hrec as ((_ & _ & _ & Hlen) & _).
  destruct (truediv_nonzero 2 (cfg_ema_period (config (self w)) + 1))
    as [alpha Halpha]; [lia|].
  destruct (compute_ema_from_alpha (bar_close <$> bars)
              (cfg_ema_period (config (self w))) alpha)
    as (ema & Hema & Hlen' & _); [by destruct bars | exact Halpha |].
  unfold on_s1_bar_update. rewrite Hha.
  assert (Hraw : raw_close bars = Ok (bar_close <$> bars))
    by (destruct bars; done).
  rewrite Hraw. cbn [mbind result_bind self set_s1_ha_bars set_s1_bars
                     with_self config].
  rewrite Hema.
  exists ha, ema. eexists. split; [reflexivity|].
  repeat split; try done; try by destruct hasNewBar.
  unfold df_len. simpl. rewrite Hlen, Hlen'. apply length_fmap.
Qed.

(** C1 fails on the code: [on_s1_bar_update] smooths the raw closes, not
    the Heikin-Ashi closes.  Whatever the (non-empty) bars, the ['ema'] column
    it stores is [compute_ema] of the raw close column.  On the three sample
    bars the Heikin-Ashi closes are 2, 3, 4 and the raw closes 3, 4, 8: the
    handler stores 3, 3.5, 5.75 beside the Heikin-Ashi bars, while [start]
    and [on_s2_bar_update] store on the same bars the EMA of the Heikin-Ashi
    closes, 2, 2.5, 3.25, as the claim has it. *)
Theorem on_s1_bar_update_ema_of_raw_close :
  (∀ bars hasNewBar w,
     bars ≠ [] → cfg_ema_period (config (self w)) ≠ (-1)%Z →
     ∃ ha ema w',
       on_s1_bar_update bars hasNewBar w = (Ok tt, w')
       ∧ compute_heikin_ashi bars = Ok ha
       ∧ compute_ema (bar_close <$> bars) (cfg_ema_period (config (self w)))
         = Ok ema
       ∧ s1_ha_bars (self w') = Some (set_ema ha ema))
  ∧ let updated := (on_s1_bar_update Sample.bars true Sample.fresh).2 in
    let started := (start_s1 Sample.bars Sample.fresh).2 in
    let updated2 := (on_s2_bar_update Sample.bars true Sample.fresh).2 in
    (compute_heikin_ashi Sample.bars ≫= λ ha, Ok (col_close ha))
      = Ok [2; 3; 4]%float
    ∧ compute_ema [2; 3; 4]%float 3 = Ok [2; 2.5; 3.25]%float
    ∧ compute_ema (bar_close <$> Sample.bars) 3 = Ok [3; 3.5; 5.75]%float
    ∧ (s1_ha_bars (self updated) ≫= col_ema) = Some [3; 3.5; 5.75]%float
    ∧ (s1_ha_bars (self started) ≫= col_ema) = Some [2; 2.5; 3.25]%float
    ∧ (s2_ha_bars (self updated2) ≫= col_ema) = Some [2; 2.5; 3.25]%float
    ∧ (3.5 =? 2.5)%float = false.
Proof.
  split.
  - intros bars hasNewBar w Hne Hperiod.
    destruct (on_s1_bar_update_smooths_raw_close bars hasNewBar w Hne Hperiod)
      as (ha & ema & w' & Hrun & Hha & Hema & _ & Hstored & _).
    by exists ha, ema, w'.
  - by vm_compute.
Qed.

Lemma on_s1_bar_update_ema_of_raw_close_witness :
  ∃ ha ema w',
    on_s1_bar_update Sample.bars true Sample.fresh = (Ok tt, w')
    ∧ compute_heikin_ashi Sample.bars = Ok ha
    ∧ compute_ema (bar_close <$> Sample.bars) 3 = Ok ema
    ∧ s1_ha_bars (self w') = Some (set_ema ha ema).
Proof.
  apply (proj1 on_s1_bar_update_ema_of_raw_close Sample.bars true Sample.fresh);
    discriminate.
Defined.

(** The difference reaches the orders: with the realized PnL inside its
    limits, the state left by the S1 handler sells where the state left by
    [start] buys. *)
Lemma on_s1_bar_update_changes_entry :
  let updated := (on_s1_bar_update Sample.bars true Sample.fresh).2 in
  let started := (start_s1 Sample.bars Sample.fresh).2 in
  (action ∘ snd) <$> placed (ib (entry updated).2) = ["SELL"%string]
  ∧ (action ∘ snd) <$> placed (ib (entry started).2) = ["BUY"%string].
Proof. by vm_compute. Qed.

(** ** Claims about entry *)

Lemma entry_blocked (w : World) :
  has_open_position w = true ∨ has_pending_trailing_stop_order w = true
  ∨ is_pnl_within_limits w = false →
  entry w = (Ok tt, w).
Proof.
  unfold entry. intros [->| [->| ->]]; [done| |].
  - by rewrite orb_true_r.
  - by destruct (_ || _)%bool.
Qed.

Lemma entry_allowed (w : World) :
  has_open_position w = false → has_pending_trailing_stop_order w = false →
  is_pnl_within_limits w = true →
  entry w = entry_rules w.
Proof. unfold entry, entry_rules. by intros -> -> ->. Qed.

Lemma entry_cases (w : World) :
  (entry w = (Ok tt, w)
   ∧ (has_open_position w = true ∨ has_pending_trailing_stop_order w = true
      ∨ is_pnl_within_limits w = false))
  ∨ (entry w = entry_rules w
     ∧ has_open_position w = false
     ∧ has_pending_trailing_stop_order w = false
     ∧ is_pnl_within_limits w = true).
Proof.
  destruct (has_open_position w) eqn:Hpos;
    [left; split; [apply entry_blocked|]; auto|].
  destruct (has_pending_trailing_stop_order w) eqn:Hpend;
    [left; split; [apply entry_blocked|]; auto|].
  destruct (is_pnl_within_limits w) eqn:Hpnl;
    [|left; split; [apply entry_blocked|]; auto].
  right. split; [by apply entry_allowed|done].
Qed.

(** C4: [entry] emits no order unless there is no S1 position, no pending
    trailing-stop order and [lower_pnl ≤ realized PnL ≤ upper_pnl]; a failed
    check returns before any rule is read, and with all three passed the
    configured rule variant decides.  With limits [-100, 100] a PnL of -150
    leaves the broker untouched whatever the bars say, while -50, and the
    endpoints -100 and 100, let the rules run. *)
Theorem entry_preconditions (w : World) :
  (placed (ib (entry w).2) ≠ placed (ib w) →
     has_open_position w = false
     ∧ has_pending_trailing_stop_order w = false
     ∧ (lower_pnl (self w) <=? get_daily_pnl w)%float = true
     ∧ (get_daily_pnl w <=? upper_pnl (self w))%float = true)
  ∧ (has_open_position w = true ∨ has_pending_trailing_stop_order w = true
     ∨ (lower_pnl (self w) <=? get_daily_pnl w)%float = false
     ∨ (get_daily_pnl w <=? upper_pnl (self w))%float = false →
     entry w = (Ok tt, w))
  ∧ (lower_pnl (self w) = (-100)%float → upper_pnl (self w) = 100%float →
     (get_daily_pnl w = (-150)%float → entry w = (Ok tt, w))
     ∧ (get_daily_pnl w = (-50)%float ∨ get_daily_pnl w = (-100)%float
        ∨ get_daily_pnl w = 100%float →
        has_open_position w = false →
        has_pending_trailing_stop_order w = false →
        entry w = entry_rules w)).
Proof.
  split; [|split].
  - intros Hplaced.
    destruct (entry_cases w) as [[E _]|(_ & Hpos & Hpend & Hpnl)].
    + rewrite E in Hplaced. done.
    + unfold is_pnl_within_limits in Hpnl.
      apply andb_true_iff in Hpnl as [? ?]. done.
  - intros H. apply entry_blocked.
    unfold is_pnl_within_limits.
    destruct H as [?|[?|[->| ->]]]; [auto|auto|auto|].
    right; right. apply andb_false_r.
  - intros Hlo Hup. split.
    + intros Hpnl. apply entry_blocked. right; right.
      unfold is_pnl_within_limits. rewrite Hlo, Hup, Hpnl. by vm_compute.
    + intros Hpnl Hpos Hpend. apply entry_allowed; [done..|].
      unfold is_pnl_within_limits. rewrite Hlo, Hup.
      destruct Hpnl as [->|[->| ->]]; by vm_compute.
Qed.

Lemma entry_preconditions_witness :
  (has_open_position (Sample.flat Sample.ema_ha (-50)) = false
   ∧ has_pending_trailing_stop_order (Sample.flat Sample.ema_ha (-50)) = false
   ∧ (-100 <=? get_daily_pnl (Sample.flat Sample.ema_ha (-50)))%float = true
   ∧ (get_daily_pnl (Sample.flat Sample.ema_ha (-50)) <=? 100)%float = true)
  ∧ entry (Sample.long []) = (Ok tt, Sample.long [])
  ∧ entry (Sample.flat Sample.ema_ha (-150))
    = (Ok tt, Sample.flat Sample.ema_ha (-150))
  ∧ entry (Sample.flat Sample.ema_ha (-50))
    = entry_rules (Sample.flat Sample.ema_ha (-50))
  ∧ (action ∘ snd) <$> placed (ib (entry (Sample.flat Sample.ema_ha (-50))).2)
    = ["BUY"%string].
Proof.
  split; [|split; [|split; [|split]]].
  - apply (proj1 (entry_preconditions (Sample.flat Sample.ema_ha (-50)))).
    vm_compute. discriminate.
  - apply (proj1 (proj2 (entry_preconditions (Sample.long [])))).
    left. reflexivity.
  - apply (proj1 (proj2 (proj2
             (entry_preconditions (Sample.flat Sample.ema_ha (-150))))
             eq_refl eq_refl)).
    reflexivity.
  - apply (proj2 (proj2 (proj2
             (entry_preconditions (Sample.flat Sample.ema_ha (-50))))
             eq_refl eq_refl)); [left|..]; reflexivity.
  - vm_compute. reflexivity.
Defined.

(** C5: condition-1 entry.  With at least two Heikin-Ashi rows, and [c] the
    second-to-last close and [e] the EMA at the same index: [c > e] places a
    BUY market order tagged "entry" for the configured size, [c < e] a SELL
    one, and [c = e] places nothing.  With fewer than two rows (or no frame
    yet) the call returns without an order and without an error. *)
Theorem condition1_entry_signal (w : World) :
  (match s1_ha_bars (self w) with
   | Some ha => df_len ha < 2
   | None => True
   end → condition1_entry w = (Ok tt, w))
  ∧ ∀ ha ema c e,
      s1_ha_bars (self w) = Some ha →
      2 ≤ df_len ha →
      col_ema ha = Some ema → length ema = df_len ha →
      col_close ha !! (df_len ha - 2) = Some c →
      ema !! (df_len ha - 2) = Some e →
      let market act :=
        mkOrder 0 act (Int (cfg_size (config (self w)))) "MKT" None None
                "entry" (Some EmptyString) true in
      ((e <? c)%float = true →
         condition1_entry w
         = (Ok tt, placeOrder (s1_contract (self w)) (market "BUY"%string) w))
      ∧ ((c <? e)%float = true →
         condition1_entry w
         = (Ok tt, placeOrder (s1_contract (self w)) (market "SELL"%string) w))
      ∧ ((c =? e)%float = true → condition1_entry w = (Ok tt, w)).
Proof.
  split.
  - unfold condition1_entry. destruct (s1_ha_bars (self w)) as [ha|]; [|done].
    intros Hlt. by destruct (Nat.ltb_spec 1 (df_len ha)); [lia|].
  - intros ha ema c e Hha Hlen Hema Hlen' Hc He market.
    assert (Hread : condition1_entry w
      = if (e <? c)%float
        then (Ok tt, placeOrder (s1_contract (self w)) (entry_order w "BUY") w)
        else if (c <? e)%float
        then (Ok tt, placeOrder (s1_contract (self w)) (entry_order w "SELL") w)
        else (Ok tt, w)).
    { unfold condition1_entry. rewrite Hha.
      destruct (Nat.ltb_spec 1 (df_len ha)); [|lia].
      unfold get_ema. rewrite Hema.
      change (-2)%Z with (- Z.of_nat 2)%Z.
      rewrite (iloc_from_end (col_close ha) 2 c) by (done || lia).
      rewrite <- Hlen' in He.
      cbv beta iota delta [mbind result_bind].
      rewrite (iloc_from_end ema 2 e) by (done || lia).
      reflexivity. }
    rewrite Hread. split; [|split].
    + by intros ->.
    + intros Hlt. by rewrite (float_ltb_asym _ _ Hlt), Hlt.
    + intros Heq. by destruct (float_eqb_not_ltb _ _ Heq) as [-> ->].
Qed.

Lemma condition1_entry_signal_witness :
  condition1_entry Sample.fresh = (Ok tt, Sample.fresh)
  ∧ (action ∘ snd) <$> placed (ib (condition1_entry (Sample.flat Sample.ema_ha 0)).2)
    = ["BUY"%string]
  ∧ (action ∘ snd) <$> placed (ib (condition1_entry (Sample.flat Sample.ema_raw 0)).2)
    = ["SELL"%string]
  ∧ condition1_entry (Sample.flat Sample.ema_level 0)
    = (Ok tt, Sample.flat Sample.ema_level 0).
Proof.
  split; [|split; [|split]].
  - apply (proj1 (condition1_entry_signal Sample.fresh)). exact I.
  - rewrite (proj1 (proj2 (condition1_entry_signal (Sample.flat Sample.ema_ha 0))
                     (Sample.frame Sample.ema_ha) Sample.ema_ha 3%float 2.5%float
                     eq_refl (le_S 2 2 (le_n 2)) eq_refl eq_refl eq_refl eq_refl)
               eq_refl).
    reflexivity.
  - rewrite (proj1 (proj2 (proj2 (condition1_entry_signal (Sample.flat Sample.ema_raw 0))
                     (Sample.frame Sample.ema_raw) Sample.ema_raw 3%float 3.5%float
                     eq_refl (le_S 2 2 (le_n 2)) eq_refl eq_refl eq_refl eq_refl))
               eq_refl).
    reflexivity.
  - apply (proj2 (proj2 (proj2 (condition1_entry_signal (Sample.flat Sample.ema_level 0))
                     (Sample.frame Sample.ema_level) Sample.ema_level 3%float 3%float
                     eq_refl (le_S 2 2 (le_n 2)) eq_refl eq_refl eq_refl eq_refl))).
    reflexivity.
Defined.

(** C10: without a 'RealizedPnL' line in USD the daily PnL reads 0.0, so
    the PnL check is exactly [lower_pnl ≤ 0 ≤ upper_pnl]; when that holds (and
    nothing else blocks), the missing line does not stop [entry] from
    running its rules. *)
Theorem get_daily_pnl_missing (w : World) :
  (∀ s, In s (accountSummary (ib w)) →
        ¬ (tag s = "RealizedPnL"%string ∧ currency s = "USD"%string)) →
  get_daily_pnl w = 0%float
  ∧ is_pnl_within_limits w
    = ((lower_pnl (self w) <=? 0)%float && (0 <=? upper_pnl (self w))%float)%bool
  ∧ (has_open_position w = false →
     has_pending_trailing_stop_order w = false →
     (lower_pnl (self w) <=? 0)%float = true →
     (0 <=? upper_pnl (self w))%float = true →
     entry w = entry_rules w).
Proof.
  intros Hmissing.
  assert (Hpnl : get_daily_pnl w = 0%float).
  { unfold get_daily_pnl.
    induction (accountSummary (ib w)) as [|s rest IH]; [done|]. simpl.
    destruct (String.eqb_spec (tag s) "RealizedPnL") as [Ht|_]; simpl.
    - destruct (String.eqb_spec (currency s) "USD") as [Hc|_].
      + exfalso. apply (Hmissing s); [by left|done].
      + apply IH. intros s' Hs'. apply Hmissing. by right.
    - apply IH. intros s' Hs'. apply Hmissing. by right. }
  split; [exact Hpnl|]. split.
  - unfold is_pnl_within_limits. by rewrite Hpnl.
  - intros Hpos Hpend Hlo Hup. apply entry_allowed; [done..|].
    unfold is_pnl_within_limits. by rewrite Hpnl, Hlo, Hup.
Qed.

Lemma get_daily_pnl_missing_witness :
  get_daily_pnl Sample.flat_without_pnl = 0%float
  ∧ is_pnl_within_limits Sample.flat_without_pnl = true
  ∧ entry Sample.flat_without_pnl = entry_rules Sample.flat_without_pnl.
Proof.
  assert (Hmissing : ∀ s, In s (accountSummary (ib Sample.flat_without_pnl)) →
            ¬ (tag s = "RealizedPnL"%string ∧ currency s = "USD"%string)).
  { intros s [<-|[<-|[]]] [Ht Hc]; discriminate. }
  destruct (get_daily_pnl_missing Sample.flat_without_pnl Hmissing)
    as (Hpnl & Hgate & Hentry).
  split; [exact Hpnl|]. split; [rewrite Hgate; reflexivity|].
  apply Hentry; reflexivity.
Defined.

(** ** Claims about the protective orders *)




(** C9: while an open order tagged "trailing_stop_loss" exists,
    [manage_positions] places nothing and changes nothing, however far the
    price has moved in favour of the position. *)
Theorem manage_positions_pending (w : World) :
  (∃ t, In t (openTrades (ib w))
        ∧ orderRef (order t) = "trailing_stop_loss"%string) →
  manage_positions w = w
  ∧ placed (ib (manage_positions w)) = placed (ib w).
Proof.
  intros (t & Hin & Href).
  assert (Hpending : has_pending_trailing_stop_order w = true).
  { unfold has_pending_trailing_stop_order. apply existsb_exists.
    exists t. split; [exact Hin|]. rewrite Href. reflexivity. }
  assert (Hsame : manage_positions w = w).
  { unfold manage_positions. rewrite Hpending.
    by rewrite andb_false_r. }
  by rewrite Hsame.
Qed.

(** The sample long position is past its trigger: without a pending
    trailing stop one is placed, with one pending nothing happens. *)
Lemma manage_positions_pending_witness :
  placed (ib (manage_positions (Sample.long [])))
  = [(Sample.MNQ,
      mkOrder 0 "SELL" (Float 2) "TRAIL" (Some 1%float) (Some 7%float)
              "trailing_stop_loss" None true)]
  ∧ manage_positions
      (Sample.long [mkTrade Sample.MNQ Sample.trailing_order 0])
    = Sample.long [mkTrade Sample.MNQ Sample.trailing_order 0]
  ∧ placed (ib (manage_positions
                  (Sample.long [mkTrade Sample.MNQ Sample.trailing_order 0])))
    = [].
Proof.
  split; [vm_compute; reflexivity|].
  apply (manage_positions_pending
           (Sample.long [mkTrade Sample.MNQ Sample.trailing_order 0])).
  exists (mkTrade Sample.MNQ Sample.trailing_order 0).
  split; [left; reflexivity | reflexivity].
Defined.

(** ** Further properties of the indicators *)

(** Two lists of the same length [n] that agree below [n] on every index. *)
Lemma take_agree (n : nat) (l1 l2 : list float) :
  length l1 = n → n ≤ length l2 →
  (∀ i, i < n → l2 !! i = l1 !! i) →
  take n l2 = l1.
Proof.
  intros H1 H2 Hagree. apply list_eq. intros i.
  destruct (decide (i < n)) as [Hi|Hi].
  - rewrite lookup_take_lt by lia. by apply Hagree.
  - rewrite lookup_take_ge by lia. symmetry. apply lookup_ge_None. lia.
Qed.

(** The recurrence fixes every value: smoothing a longer sequence agrees
    with smoothing its prefix. *)
Lemma ema_recurrence_prefix (prices more : list float) (alpha : float)
    (e1 e2 : list float) :
  ema_recurrence prices alpha e1 →
  ema_recurrence (prices ++ more) alpha e2 →
  take (length prices) e2 = e1.
Proof.
  intros (Hlen1 & H01 & Hrec1) (Hlen2 & H02 & Hrec2).
  apply take_agree; [done | rewrite Hlen2, length_app; lia |].
  intros i. induction i as [|i IH]; intros Hi.
  - rewrite H01, H02. by apply lookup_app_l.
  - destruct (lookup_lt_is_Some_2 prices (S i) Hi) as [p Hp].
    destruct (lookup_lt_is_Some_2 e1 i ltac:(lia)) as [e He].
    rewrite (Hrec1 i p e Hp He).
    apply Hrec2; [by apply lookup_app_l_Some|].
    rewrite IH by lia. exact He.
Qed.

(** X1: appending prices never changes the EMA values already computed:
    each value depends on the prices up to its own index only, so the
    from-scratch recomputation on every bar update reproduces the earlier
    values. *)
Theorem compute_ema_prefix (prices more : list float) (period : Z) :
  prices ≠ [] →
  period ≠ (-1)%Z →
  ∃ e1 e2,
    compute_ema prices period = Ok e1
    ∧ compute_ema (prices ++ more) period = Ok e2
    ∧ length e2 = length prices + length more
    ∧ take (length prices) e2 = e1.
Proof.
  intros Hne Hperiod.
  destruct (truediv_nonzero 2 (period + 1)) as [alpha Halpha]; [lia|].
  destruct (compute_ema_from_alpha prices period alpha Hne Halpha)
    as (e1 & He1 & Hrec1).
  destruct (compute_ema_from_alpha (prices ++ more) period alpha) as (e2 & He2 & Hrec2);
    [by destruct prices | exact Halpha |].
  exists e1, e2. split; [exact He1|]. split; [exact He2|]. split.
  - destruct Hrec2 as (-> & _). apply length_app.
  - by apply (ema_recurrence_prefix prices more alpha).
Qed.

Lemma compute_ema_prefix_witness :
  compute_ema [2; 3]%float 3 = Ok [2; 2.5]%float
  ∧ compute_ema ([2; 3] ++ [4])%float 3 = Ok [2; 2.5; 3.25]%float
  ∧ ∃ e1 e2,
      compute_ema [2; 3]%float 3 = Ok e1
      ∧ compute_ema ([2; 3] ++ [4])%float 3 = Ok e2
      ∧ length e2 = 2 + 1
      ∧ take 2 e2 = e1.
Proof.
  split; [vm_compute; reflexivity|]. split; [vm_compute; reflexivity|].
  apply (compute_ema_prefix [2; 3]%float [4]%float 3); [discriminate | lia].
Defined.

(** The Heikin-Ashi columns of a longer bar list agree with those of its
    prefix. *)
Lemma ha_recurrence_prefix (bars more : list BarData) (h1 h2 : DataFrame) :
  ha_recurrence bars h1 →
  col_high h1 !! 0 = col_close h1 !! 0 → col_low h1 !! 0 = col_close h1 !! 0 →
  ha_recurrence (bars ++ more) h2 →
  col_high h2 !! 0 = col_close h2 !! 0 → col_low h2 !! 0 = col_close h2 !! 0 →
  take (length bars) (col_open h2) = col_open h1
  ∧ take (length bars) (col_high h2) = col_high h1
  ∧ take (length bars) (col_low h2) = col_low h1
  ∧ take (length bars) (col_close h2) = col_close h1.
Proof.
  intros ((Lo1 & Lh1 & Ll1 & Lc1) & Hc1 & Ho1 & Hrec1) Hh01 Hl01
         ((Lo2 & Lh2 & Ll2 & Lc2) & Hc2 & Ho2 & Hrec2) Hh02 Hl02.
  assert (Hclose : ∀ i, i < length bars → col_close h2 !! i = col_close h1 !! i).
  { intros i Hi. destruct (lookup_lt_is_Some_2 bars i Hi) as [b Hb].
    rewrite (Hc1 i b Hb). apply Hc2. by apply lookup_app_l_Some. }
  assert (Hrows : ∀ i, i < length bars →
            col_open h2 !! i = col_open h1 !! i
            ∧ col_high h2 !! i = col_high h1 !! i
            ∧ col_low h2 !! i = col_low h1 !! i).
  { intros i. induction i as [|i IH]; intros Hi.
    - rewrite Ho1, Ho2, Hh01, Hh02, Hl01, Hl02. by rewrite !Hclose.
    - destruct (lookup_lt_is_Some_2 bars (S i) Hi) as [b Hb].
      destruct (lookup_lt_is_Some_2 (col_open h1) i ltac:(lia)) as [po Hpo].
      destruct (lookup_lt_is_Some_2 (col_close h1) i ltac:(lia)) as [pc Hpc].
      destruct (lookup_lt_is_Some_2 (col_close h1) (S i) ltac:(lia)) as [c Hc].
      destruct (IH ltac:(lia)) as (IHo & _).
      destruct (Hrec1 i b po pc c Hb Hpo Hpc Hc) as (-> & -> & ->).
      apply Hrec2; [by apply lookup_app_l_Some|..].
      + by rewrite IHo.
      + by rewrite Hclose by lia.
      + by rewrite Hclose by lia. }
  assert (Hle : length bars ≤ length (bars ++ more))
    by (rewrite length_app; lia).
  repeat split; (apply take_agree; [done | lia |]); intros i Hi;
    first [by apply Hclose | by apply Hrows].
Qed.

(** X2: appending bars never changes the Heikin-Ashi rows already
    computed: every row depends on the bars up to its own index only. *)
Theorem compute_heikin_ashi_prefix (bars more : list BarData) :
  bars ≠ [] →
  ∃ h1 h2,
    compute_heikin_ashi bars = Ok h1
    ∧ compute_heikin_ashi (bars ++ more) = Ok h2
    ∧ df_len h2 = length bars + length more
    ∧ take (length bars) (col_open h2) = col_open h1
    ∧ take (length bars) (col_high h2) = col_high h1
    ∧ take (length bars) (col_low h2) = col_low h1
    ∧ take (length bars) (col_close h2) = col_close h1.
Proof.
  intros Hne.
  destruct (compute_heikin_ashi_ok bars Hne) as (h1 & Hh1 & Hrec1 & Hh01 & Hl01 & _).
  destruct (compute_heikin_ashi_ok (bars ++ more))
    as (h2 & Hh2 & Hrec2 & Hh02 & Hl02 & _); [by destruct bars|].
  exists h1, h2. split; [exact Hh1|]. split; [exact Hh2|]. split.
  - destruct Hrec2 as ((_ & _ & _ & Hlen) & _). unfold df_len.
    rewrite Hlen. apply length_app.
  - by apply (ha_recurrence_prefix bars more).
Qed.

Lemma compute_heikin_ashi_prefix_witness :
  ∃ h1 h2,
    compute_heikin_ashi [mkBar 1 4 0 3; mkBar 2 5 1 4]%float = Ok h1
    ∧ compute_heikin_ashi
        ([mkBar 1 4 0 3; mkBar 2 5 1 4] ++ [mkBar 2 5 1 8])%float = Ok h2
    ∧ df_len h2 = 2 + 1
    ∧ take 2 (col_open h2) = col_open h1
    ∧ take 2 (col_high h2) = col_high h1
    ∧ take 2 (col_low h2) = col_low h1
    ∧ take 2 (col_close h2) = col_close h1.
Proof.
  apply (compute_heikin_ashi_prefix
           [mkBar 1 4 0 3; mkBar 2 5 1 4]%float [mkBar 2 5 1 8]%float).
  discriminate.
Defined.

(** ** The Heikin-Ashi candle contains its open and close *)

(** [a ≤ b] on specification floats, false as soon as one side is NaN. *)
Lemma SFleb_swap_ltb (a b : spec_float) :
  SFcompare a a = Some Eq → SFcompare b b = Some Eq →
  SFltb a b = false → SFleb b a = true.
Proof.
  unfold SFltb, SFleb. rewrite (SFcompare_swap a b).
  intros Ha Hb.
  destruct (SFcompare a b) as [[| |]|] eqn:E; simpl; try done.
  destruct a, b; simpl in *; try done.
Qed.

Lemma lex_le_pos (e1 e2 : Z) (m1 m2 : positive) :
  match (e1 ?= e2)%Z with
  | Eq => Pos.compare_cont Eq m1 m2
  | Lt => Lt
  | Gt => Gt
  end ≠ Gt
  ↔ (e1 < e2)%Z ∨ (e1 = e2 ∧ (m1 <= m2)%positive).
Proof.
  change (Pos.compare_cont Eq m1 m2) with (m1 ?= m2)%positive.
  destruct (Z.compare_spec e1 e2); [|split; (done || lia)..].
  destruct (Pos.compare_spec m1 m2); split; (done || lia).
Qed.

Lemma lex_le_neg (e1 e2 : Z) (m1 m2 : positive) :
  match (e1 ?= e2)%Z with
  | Eq => CompOpp (Pos.compare_cont Eq m1 m2)
  | Lt => Gt
  | Gt => Lt
  end ≠ Gt
  ↔ (e2 < e1)%Z ∨ (e1 = e2 ∧ (m2 <= m1)%positive).
Proof.
  change (Pos.compare_cont Eq m1 m2) with (m1 ?= m2)%positive.
  destruct (Z.compare_spec e1 e2); [|split; (done || lia)..].
  destruct (Pos.compare_spec m1 m2); simpl; split; (done || lia).
Qed.

Lemma SFleb_not_Gt (a b : spec_float) :
  SFleb a b = true ↔ (∃ c, SFcompare a b = Some c ∧ c ≠ Gt).
Proof.
  unfold SFleb. destruct (SFcompare a b) as [[| |]|]; split; try done;
    try (by eexists); by intros (c & [= <-] & ?).
Qed.

Lemma SFleb_trans (a b c : spec_float) :
  SFleb a b = true → SFleb b c = true → SFleb a c = true.
Proof.
  rewrite !SFleb_not_Gt.
  intros (x & Hx & Hxg) (y & Hy & Hyg).
  destruct a as [sa|sa| |sa ma ea], b as [sb|sb| |sb mb eb],
    c as [sc|sc| |sc mc ec]; try done;
    try (destruct sa, sb, sc; simpl in *; simplify_eq; by eexists).
  destruct sa, sb, sc; simpl in *; simplify_eq; try (by eexists);
    eexists; (split; [reflexivity|]);
    first [ apply lex_le_pos; apply lex_le_pos in Hxg, Hyg; lia
          | apply lex_le_neg; apply lex_le_neg in Hxg, Hyg; lia ].
Qed.

Section Float_order.

Implicit Types x y z : float.

Lemma not_nan_compare x :
  is_nan x = false → SFcompare (Prim2SF x) (Prim2SF x) = Some Eq.
Proof.
  unfold is_nan. rewrite FloatAxioms.eqb_spec. unfold SFeqb.
  by destruct (SFcompare (Prim2SF x) (Prim2SF x)) as [[| |]|].
Qed.

Lemma float_leb_refl x : is_nan x = false → (x <=? x)%float = true.
Proof.
  intros H. rewrite leb_spec. unfold SFleb. by rewrite (not_nan_compare x H).
Qed.

Lemma float_ltb_leb x y : (x <? y)%float = true → (x <=? y)%float = true.
Proof.
  rewrite ltb_spec, leb_spec. unfold SFltb, SFleb.
  by destruct (SFcompare (Prim2SF x) (Prim2SF y)) as [[| |]|].
Qed.

Lemma float_not_ltb_leb x y :
  is_nan x = false → is_nan y = false →
  (x <? y)%float = false → (y <=? x)%float = true.
Proof.
  intros Hx Hy. rewrite ltb_spec, leb_spec.
  apply SFleb_swap_ltb; by apply not_nan_compare.
Qed.

Lemma float_leb_trans x y z :
  (x <=? y)%float = true → (y <=? z)%float = true → (x <=? z)%float = true.
Proof. rewrite !leb_spec. apply SFleb_trans. Qed.

(** Python's [max] of three numbers is an upper bound of them, and [min]
    a lower bound, when none is NaN. *)
Lemma max3_upper x y z :
  is_nan x = false → is_nan y = false → is_nan z = false →
  (x <=? max3 x y z)%float = true
  ∧ (y <=? max3 x y z)%float = true
  ∧ (z <=? max3 x y z)%float = true.
Proof.
  intros Hx Hy Hz. unfold max3.
  destruct (x <? y)%float eqn:Hxy.
  - destruct (y <? z)%float eqn:Hyz.
    + repeat split; eauto using float_leb_trans, float_ltb_leb, float_leb_refl.
    + repeat split; eauto using float_ltb_leb, float_leb_refl, float_not_ltb_leb.
  - destruct (x <? z)%float eqn:Hxz.
    + repeat split;
        eauto using float_leb_trans, float_ltb_leb, float_leb_refl,
          float_not_ltb_leb.
    + repeat split; eauto using float_leb_refl, float_not_ltb_leb.
Qed.

Lemma min3_lower x y z :
  is_nan x = false → is_nan y = false → is_nan z = false →
  (min3 x y z <=? x)%float = true
  ∧ (min3 x y z <=? y)%float = true
  ∧ (min3 x y z <=? z)%float = true.
Proof.
  intros Hx Hy Hz. unfold min3.
  destruct (y <? x)%float eqn:Hyx.
  - destruct (z <? y)%float eqn:Hzy.
    + repeat split; eauto using float_leb_trans, float_ltb_leb, float_leb_refl.
    + repeat split; eauto using float_ltb_leb, float_leb_refl, float_not_ltb_leb.
  - destruct (z <? x)%float eqn:Hzx.
    + repeat split;
        eauto using float_leb_trans, float_ltb_leb, float_leb_refl,
          float_not_ltb_leb.
    + repeat split; eauto using float_leb_refl, float_not_ltb_leb.
Qed.

End Float_order.

(** X3: from the second row on, a Heikin-Ashi candle is well formed.
    For every index [i ≥ 1] whose raw high and low and whose Heikin-Ashi open
    and close are numbers (not NaN), the Heikin-Ashi low is at most the
    open, the close and the raw low, and the Heikin-Ashi high is at least
    the open, the close and the raw high; so [ha_low ≤ ha_high]. *)
Theorem heikin_ashi_candle_envelope (bars : list BarData) (ha : DataFrame)
    (i : nat) (b : BarData) (o c h l : float) :
  compute_heikin_ashi bars = Ok ha →
  bars !! S i = Some b →
  col_open ha !! S i = Some o → col_close ha !! S i = Some c →
  col_high ha !! S i = Some h → col_low ha !! S i = Some l →
  is_nan (bar_high b) = false → is_nan (bar_low b) = false →
  is_nan o = false → is_nan c = false →
  ((l <=? o)%float = true ∧ (o <=? h)%float = true)
  ∧ ((l <=? c)%float = true ∧ (c <=? h)%float = true)
  ∧ ((l <=? bar_low b)%float = true ∧ (bar_high b <=? h)%float = true)
  ∧ (l <=? h)%float = true.
Proof.
  intros Hha Hb Ho Hc Hh Hl Nh Nl No Nc.
  destruct bars as [|b0 rest] eqn:Ebars; [done|]. rewrite <- Ebars in *.
  destruct (compute_heikin_ashi_ok bars) as (ha' & Hha' & Hrec & _);
    [by rewrite Ebars|].
  assert (ha' = ha) as -> by congruence.
  destruct Hrec as ((Lo & _ & _ & Lc) & _ & _ & Hstep).
  pose proof (lookup_lt_Some _ _ _ Hb) as Hlt.
  destruct (lookup_lt_is_Some_2 (col_open ha) i ltac:(lia)) as [po Hpo].
  destruct (lookup_lt_is_Some_2 (col_close ha) i ltac:(lia)) as [pc Hpc].
  destruct (Hstep i b po pc c Hb Hpo Hpc Hc) as (Ho' & Hh' & Hl').
  assert (((po + pc) / 2)%float = o) as Eo by congruence.
  rewrite Eo in Hh', Hl'.
  assert (h = max3 (bar_high b) o c) as -> by congruence.
  assert (l = min3 (bar_low b) o c) as -> by congruence.
  destruct (max3_upper (bar_high b) o c Nh No Nc) as (U1 & U2 & U3).
  destruct (min3_lower (bar_low b) o c Nl No Nc) as (D1 & D2 & D3).
  repeat split; try done. by apply (float_leb_trans _ o).
Qed.

Lemma heikin_ashi_candle_envelope_witness :
  ((1 <=? 2.5)%float = true ∧ (2.5 <=? 5)%float = true)
  ∧ ((1 <=? 4)%float = true ∧ (4 <=? 5)%float = true)
  ∧ ((1 <=? bar_low (mkBar 2 5 1 8))%float = true
     ∧ (bar_high (mkBar 2 5 1 8) <=? 5)%float = true)
  ∧ (1 <=? 5)%float = true.
Proof.
  apply (heikin_ashi_candle_envelope Sample.bars
           (mkFrame [2; 2; 2.5]%float [2; 5; 5]%float [2; 1; 1]%float
                    [2; 3; 4]%float None)
           1 (mkBar 2 5 1 8) 2.5 4 5 1); reflexivity.
Defined.

(** ** Further properties of the bar-update handlers *)

(** What a successful S1 update leaves behind, spelled out. *)
Lemma on_s1_bar_update_run (bars : list BarData) (hasNewBar : bool)
    (w : World) :
  bars ≠ [] →
  cfg_ema_period (config (self w)) ≠ (-1)%Z →
  ∃ ha ema,
    compute_heikin_ashi bars = Ok ha
    ∧ compute_ema (bar_close <$> bars) (cfg_ema_period (config (self w)))
      = Ok ema
    ∧ ha_recurrence bars ha
    ∧ length ema = length bars
    ∧ on_s1_bar_update bars hasNewBar w
      = (Ok tt,
         create_task Task_manage_positions
           ((if hasNewBar then create_task Task_execute else id)
              (set_s1_ha_bars
                 (set_s1_ha_bars (set_s1_bars w (Some bars)) (Some ha))
                 (Some (set_ema ha ema))))).
Proof.
  intros Hne Hperiod.
  destruct (compute_heikin_ashi_ok bars Hne) as (ha & Hha & Hrec & _).
  destruct (truediv_nonzero 2 (cfg_ema_period (config (self w)) + 1))
    as [alpha Halpha]; [lia|].
  destruct (compute_ema_from_alpha (bar_close <$> bars)
              (cfg_ema_period (config (self w))) alpha)
    as (ema & Hema & Hlen & _); [by destruct bars | exact Halpha |].
  exists ha, ema. split; [exact Hha|]. split; [exact Hema|].
  split; [exact Hrec|]. split; [by rewrite Hlen, length_fmap|].
  unfold on_s1_bar_update. rewrite Hha.
  assert (Hraw : raw_close bars = Ok (bar_close <$> bars))
    by (destruct bars; done).
  rewrite Hraw.
  cbn [mbind result_bind self set_s1_ha_bars set_s1_bars with_self config].
  rewrite Hema. by destruct hasNewBar.
Qed.

(** X5: a successful S1 bar update only refreshes the S1 indicators and
    schedules work.  It stores the bars and a frame whose five columns have
    one row per bar, calls nothing on the broker, leaves the position state
    and the S2 indicators alone, and queues [execute] (only when the update
    opens a new bar) followed by [manage_positions] (always). *)
Theorem on_s1_bar_update_effects (bars : list BarData) (hasNewBar : bool)
    (w : World) :
  bars ≠ [] →
  cfg_ema_period (config (self w)) ≠ (-1)%Z →
  ∃ frame ema w',
    on_s1_bar_update bars hasNewBar w = (Ok tt, w')
    ∧ s1_bars (self w') = Some bars
    ∧ s1_ha_bars (self w') = Some frame
    ∧ col_ema frame = Some ema
    ∧ (length (col_open frame) = length bars
       ∧ length (col_high frame) = length bars
       ∧ length (col_low frame) = length bars
       ∧ length (col_close frame) = length bars
       ∧ length ema = length bars)
    ∧ ib w' = ib w
    ∧ tasks w'
      = tasks w ++ (if hasNewBar then [Task_execute] else [])
                ++ [Task_manage_positions]
    ∧ (entry_price (self w') = entry_price (self w)
       ∧ oca_group (self w') = oca_group (self w)
       ∧ config (self w') = config (self w)
       ∧ s2_bars (self w') = s2_bars (self w)
       ∧ s2_ha_bars (self w') = s2_ha_bars (self w)).
Proof.
  intros Hne Hperiod.
  destruct (on_s1_bar_update_run bars hasNewBar w Hne Hperiod)
    as (ha & ema & _ & _ & Hrec & Hlen & Hrun).
  destruct Hrec as ((Lo & Lh & Ll & Lc) & _).
  exists (set_ema ha ema), ema. eexists. split; [exact Hrun|].
  destruct hasNewBar; simpl; rewrite <- ?app_assoc; repeat split; done.
Qed.

Lemma on_s1_bar_update_effects_witness :
  ∃ frame ema w',
    on_s1_bar_update Sample.bars false (Sample.long []) = (Ok tt, w')
    ∧ s1_bars (self w') = Some Sample.bars
    ∧ s1_ha_bars (self w') = Some frame
    ∧ col_ema frame = Some ema
    ∧ (length (col_open frame) = 3 ∧ length (col_high frame) = 3
       ∧ length (col_low frame) = 3 ∧ length (col_close frame) = 3
       ∧ length ema = 3)
    ∧ ib w' = ib (Sample.long [])
    ∧ tasks w' = [] ++ [] ++ [Task_manage_positions]
    ∧ (entry_price (self w') = Some 3%float
       ∧ oca_group (self w') = None
       ∧ config (self w') = Sample.cfg
       ∧ s2_bars (self w') = None
       ∧ s2_ha_bars (self w') = None).
Proof.
  apply (on_s1_bar_update_effects Sample.bars false (Sample.long []));
    discriminate.
Defined.

(** X6: a successful S2 bar update stores the S2 bars and their
    Heikin-Ashi frame with the EMA of the Heikin-Ashi closes, for
    [vix_ema_period]; it schedules nothing, calls nothing on the broker and
    leaves every S1 indicator and the position state alone. *)
Theorem on_s2_bar_update_effects (bars : list BarData) (hasNewBar : bool)
    (w : World) :
  bars ≠ [] →
  cfg_vix_ema_period (config (self w)) ≠ (-1)%Z →
  ∃ ha ema w',
    on_s2_bar_update bars hasNewBar w = (Ok tt, w')
    ∧ compute_heikin_ashi bars = Ok ha
    ∧ compute_ema (col_close ha) (cfg_vix_ema_period (config (self w)))
      = Ok ema
    ∧ length ema = length bars
    ∧ s2_bars (self w') = Some bars
    ∧ s2_ha_bars (self w') = Some (set_ema ha ema)
    ∧ tasks w' = tasks w
    ∧ ib w' = ib w
    ∧ (s1_bars (self w') = s1_bars (self w)
       ∧ s1_ha_bars (self w') = s1_ha_bars (self w)
       ∧ entry_price (self w') = entry_price (self w)
       ∧ oca_group (self w') = oca_group (self w)
       ∧ config (self w') = config (self w)).
Proof.
  intros Hne Hperiod.
  destruct (compute_heikin_ashi_ok bars Hne) as (ha & Hha & Hrec & _).
  destruct Hrec as ((_ & _ & _ & Lc) & _).
  destruct (truediv_nonzero 2 (cfg_vix_ema_period (config (self w)) + 1))
    as [alpha Halpha]; [lia|].
  destruct (compute_ema_from_alpha (col_close ha)
              (cfg_vix_ema_period (config (self w))) alpha)
    as (ema & Hema & Hlen & _); [|exact Halpha|].
  { intros Hnil. rewrite Hnil in Lc. by destruct bars. }
  exists ha, ema. eexists.
  unfold on_s2_bar_update. rewrite Hha.
  cbn [self set_s2_ha_bars set_s2_bars with_self config].
  rewrite Hema. simpl. repeat split; try done. by rewrite Hlen.
Qed.

Lemma on_s2_bar_update_effects_witness :
  ∃ ha ema w',
    on_s2_bar_update Sample.bars true Sample.fresh = (Ok tt, w')
    ∧ compute_heikin_ashi Sample.bars = Ok ha
    ∧ compute_ema (col_close ha) 3 = Ok ema
    ∧ length ema = 3
    ∧ s2_bars (self w') = Some Sample.bars
    ∧ s2_ha_bars (self w') = Some (set_ema ha ema)
    ∧ tasks w' = []
    ∧ ib w' = ib Sample.fresh
    ∧ (s1_bars (self w') = None
       ∧ s1_ha_bars (self w') = None
       ∧ entry_price (self w') = None
       ∧ oca_group (self w') = None
       ∧ config (self w') = Sample.cfg).
Proof.
  apply (on_s2_bar_update_effects Sample.bars true Sample.fresh); discriminate.
Defined.

(** X4: how a bar update can fail.  [on_s1_bar_update] raises [TypeError]
    exactly for an empty bar list ([util.df] returns [None] for it, there is
    no empty frame), otherwise [ZeroDivisionError] exactly when [ema_period]
    is -1, and succeeds in every other case; [on_s2_bar_update] likewise
    with [vix_ema_period].  A failed S1 update has already replaced [s1_bars]
    but schedules neither [execute] nor [manage_positions], and on empty
    bars the previous Heikin-Ashi frame stays in place. *)
Theorem bar_update_failures (bars : list BarData) (hasNewBar : bool)
    (w : World) :
  (on_s1_bar_update bars hasNewBar w).1
  = match bars with
    | [] => Raise TypeError
    | _ => if (cfg_ema_period (config (self w)) =? -1)%Z
           then Raise ZeroDivisionError else Ok tt
    end
  ∧ (on_s2_bar_update bars hasNewBar w).1
    = match bars with
      | [] => Raise TypeError
      | _ => if (cfg_vix_ema_period (config (self w)) =? -1)%Z
             then Raise ZeroDivisionError else Ok tt
      end
  ∧ ((on_s1_bar_update bars hasNewBar w).1 ≠ Ok tt →
     s1_bars (self (on_s1_bar_update bars hasNewBar w).2) = Some bars
     ∧ tasks (on_s1_bar_update bars hasNewBar w).2 = tasks w
     ∧ ib (on_s1_bar_update bars hasNewBar w).2 = ib w)
  ∧ (bars = [] →
     s1_ha_bars (self (on_s1_bar_update bars hasNewBar w).2)
     = s1_ha_bars (self w)).
Proof.
  destruct bars as [|b rest] eqn:Ebars; [by repeat split|].
  rewrite <- Ebars. assert (Hne : bars ≠ []) by (by rewrite Ebars).
  clear Ebars.
  destruct (compute_heikin_ashi_ok bars Hne) as (ha & Hha & Hrec & _).
  assert (Hraw : raw_close bars = Ok (bar_close <$> bars))
    by (destruct bars; done).
  assert (Hclose : col_close ha ≠ []).
  { destruct Hrec as ((_ & _ & _ & Lc) & _). intros Hnil.
    rewrite Hnil in Lc. by destruct bars. }
  split; [|split; [|split; [|done]]].
  - destruct (Z.eqb_spec (cfg_ema_period (config (self w))) (-1)) as [Hp|Hp].
    + unfold on_s1_bar_update. rewrite Hha, Hraw.
      cbn [mbind result_bind self set_s1_ha_bars set_s1_bars with_self config].
      unfold compute_ema. by rewrite Hp.
    + destruct (on_s1_bar_update_run bars hasNewBar w Hne Hp)
        as (? & ? & _ & _ & _ & _ & ->). done.
  - unfold on_s2_bar_update. rewrite Hha.
    cbn [self set_s2_ha_bars set_s2_bars with_self config].
    destruct (Z.eqb_spec (cfg_vix_ema_period (config (self w))) (-1)) as [Hp|Hp].
    + unfold compute_ema. by rewrite Hp.
    + destruct (truediv_nonzero 2 (cfg_vix_ema_period (config (self w)) + 1))
        as [alpha Halpha]; [lia|].
      destruct (compute_ema_from_alpha (col_close ha)
                  (cfg_vix_ema_period (config (self w))) alpha Hclose Halpha)
        as (ema & -> & _). done.
  - unfold on_s1_bar_update. rewrite Hha, Hraw.
    cbn [mbind result_bind self set_s1_ha_bars set_s1_bars with_self config].
    destruct (compute_ema _ _); [|done].
    by destruct hasNewBar.
Qed.

Lemma bar_update_failures_witness :
  (on_s1_bar_update [] true Sample.fresh).1 = Raise TypeError
  ∧ (on_s1_bar_update Sample.bars true Sample.fresh).1 = Ok tt
  ∧ tasks (on_s1_bar_update [] true Sample.fresh).2 = []
  ∧ s1_ha_bars (self (on_s1_bar_update [] true (Sample.long [])).2)
    = Some (Sample.frame Sample.ema_raw).
Proof.
  split; [|split; [|split]].
  - apply (proj1 (bar_update_failures [] true Sample.fresh)).
  - apply (proj1 (bar_update_failures Sample.bars true Sample.fresh)).
  - apply (proj1 (proj2 (proj2 (bar_update_failures [] true Sample.fresh)))).
    discriminate.
  - apply (proj2 (proj2 (proj2 (bar_update_failures [] true (Sample.long []))))).
    reflexivity.
Defined.

(** ** Further properties of entry *)

Lemma condition1_entry_outcome (w : World) :
  rule_outcome w (condition1_entry w).
Proof.
  unfold rule_outcome, condition1_entry.
  repeat case_match; simpl; eauto 6.
Qed.

Lemma condition2_entry_outcome (w : World) :
  rule_outcome w (condition2_entry w).
Proof.
  unfold rule_outcome, condition2_entry.
  repeat case_match; simpl; eauto 6.
Qed.

Lemma entry_outcome (w : World) : rule_outcome w (entry w).
Proof.
  destruct (entry_cases w) as [[-> _]|[-> _]]; [by left|].
  unfold entry_rules. repeat case_match; [..|by left|by left].
  - apply condition1_entry_outcome.
  - apply condition2_entry_outcome.
Qed.

(** X7: whatever the state, one call of [entry] places at most one order,
    and that order is a market order on the S1 contract, tagged "entry", of
    the configured size, BUY or SELL, allowed outside regular hours.  The
    call never changes the connector's own attributes or the scheduled
    tasks, and places nothing when it raises. *)
Theorem entry_places_at_most_one_order (w : World) :
  self (entry w).2 = self w
  ∧ tasks (entry w).2 = tasks w
  ∧ (placed (ib (entry w).2) = placed (ib w)
     ∨ ∃ act,
         (act = "BUY"%string ∨ act = "SELL"%string)
         ∧ (entry w).1 = Ok tt
         ∧ placed (ib (entry w).2)
           = placed (ib w)
             ++ [(s1_contract (self w),
                  mkOrder 0 act (Int (cfg_size (config (self w)))) "MKT"
                          None None "entry" (Some EmptyString) true)])
  ∧ (∀ e, (entry w).1 = Raise e → (entry w).2 = w).
Proof.
  destruct (entry_outcome w) as [Hsame|(act & Hact & Hout)].
  - rewrite Hsame. repeat split; auto.
  - rewrite Hout. simpl. repeat split; try done.
    right. exists act. done.
Qed.

(** X9: condition 2 is condition 1 with extra confirmations: whenever
    [condition2_entry] places an order, [condition1_entry] run on the same
    state places the same order. *)
Theorem condition2_entry_implies_condition1_entry (w : World) :
  placed (ib (condition2_entry w).2) ≠ placed (ib w) →
  condition1_entry w = condition2_entry w.
Proof.
  unfold condition2_entry, condition1_entry.
  destruct (s1_ha_bars (self w)) as [ha1|]; [|done].
  destruct (s2_ha_bars (self w)) as [ha2|]; [|done].
  destruct (1 <? df_len ha1); [|done].
  destruct (0 <? df_len ha2); [|done]. simpl.
  destruct (iloc (col_close ha1) (-2)) as [c1|]; [|done]. simpl.
  destruct (iloc (col_open ha1) (-2)) as [o1|]; [|done]. simpl.
  destruct (iloc (col_close ha2) (-1)) as [c2|]; [|done]. simpl.
  destruct (get_ema ha1 ≫= λ ema, iloc ema (-2)) as [e1|]; [|done]. simpl.
  destruct (get_ema ha2 ≫= λ ema, iloc ema (-1)) as [e2|]; [|done]. simpl.
  destruct (o1 <? c1)%float; simpl.
  - destruct (e1 <? c1)%float eqn:Habove; simpl.
    + destruct (c2 <? e2)%float; [done|]. simpl.
      destruct (c1 <? o1)%float; simpl; [|done].
      destruct (c1 <? e1)%float eqn:Hbelow; simpl; [|done].
      by rewrite (float_ltb_asym _ _ Hbelow) in Habove.
    + destruct (c1 <? o1)%float; simpl; [|done].
      destruct (c1 <? e1)%float; simpl; [|done].
      by destruct (e2 <? c2)%float.
  - destruct (c1 <? o1)%float; simpl; [|done].
    destruct (c1 <? e1)%float eqn:Hbelow; simpl; [|done].
    rewrite (float_ltb_asym _ _ Hbelow).
    by destruct (e2 <? c2)%float.
Qed.

Lemma condition2_entry_implies_condition1_entry_witness :
  condition1_entry (Sample_both Sample.ema_ha [5; 6]%float)
  = condition2_entry (Sample_both Sample.ema_ha [5; 6]%float)
  ∧ (action ∘ snd)
      <$> placed (ib (condition2_entry
                        (Sample_both Sample.ema_ha [5; 6]%float)).2)
    = ["BUY"%string].
Proof.
  split; [|vm_compute; reflexivity].
  apply (condition2_entry_implies_condition1_entry
           (Sample_both Sample.ema_ha [5; 6]%float)).
  vm_compute. discriminate.
Defined.

(** X8: condition-2 entry.  With [c], [o], [e] the second-to-last S1
    Heikin-Ashi close, open and EMA, and [c2], [e2] the last S2 close and
    EMA: a BUY needs [c > o], [c > e] and [c2 < e2]; a SELL needs [c < o],
    [c < e] and [c2 > e2]; anything else places nothing.  Without two S1
    rows or without any S2 row the call returns at once. *)
Theorem condition2_entry_signal (w : World) :
  (match s1_ha_bars (self w), s2_ha_bars (self w) with
   | Some ha1, Some ha2 => df_len ha1 < 2 ∨ df_len ha2 < 1
   | _, _ => True
   end → condition2_entry w = (Ok tt, w))
  ∧ ∀ ha1 ha2 ema1 ema2 c o e c2 e2,
      s1_ha_bars (self w) = Some ha1 → s2_ha_bars (self w) = Some ha2 →
      2 ≤ df_len ha1 → 1 ≤ df_len ha2 →
      col_ema ha1 = Some ema1 → length ema1 = df_len ha1 →
      col_ema ha2 = Some ema2 → length ema2 = df_len ha2 →
      length (col_open ha1) = df_len ha1 →
      col_close ha1 !! (df_len ha1 - 2) = Some c →
      col_open ha1 !! (df_len ha1 - 2) = Some o →
      ema1 !! (df_len ha1 - 2) = Some e →
      col_close ha2 !! (df_len ha2 - 1) = Some c2 →
      ema2 !! (df_len ha2 - 1) = Some e2 →
      condition2_entry w
      = if ((o <? c)%float && (e <? c)%float && (c2 <? e2)%float)%bool
        then (Ok tt, placeOrder (s1_contract (self w)) (entry_order w "BUY") w)
        else if ((c <? o)%float && (c <? e)%float && (e2 <? c2)%float)%bool
        then (Ok tt, placeOrder (s1_contract (self w)) (entry_order w "SELL") w)
        else (Ok tt, w).
Proof.
  split.
  - unfold condition2_entry.
    destruct (s1_ha_bars (self w)) as [ha1|]; [|done].
    destruct (s2_ha_bars (self w)) as [ha2|]; [|done].
    intros [Hlt|Hlt].
    + by destruct (Nat.ltb_spec 1 (df_len ha1)); [lia|].
    + destruct (Nat.ltb_spec 0 (df_len ha2)); [lia|].
      by rewrite andb_false_r.
  - intros ha1 ha2 ema1 ema2 c o e c2 e2 Hha1 Hha2 Hn1 Hn2 Hema1 Hlen1
           Hema2 Hlen2 Hopen Hc Ho He Hc2 He2.
    unfold condition2_entry. rewrite Hha1, Hha2.
    destruct (Nat.ltb_spec 1 (df_len ha1)); [|lia].
    destruct (Nat.ltb_spec 0 (df_len ha2)); [|lia].
    unfold get_ema. rewrite Hema1, Hema2.
    change (-2)%Z with (- Z.of_nat 2)%Z. change (-1)%Z with (- Z.of_nat 1)%Z.
    rewrite <- Hlen1 in He. rewrite <- Hlen2 in He2. rewrite <- Hopen in Ho.
    rewrite (iloc_from_end (col_close ha1) 2 c) by (done || lia).
    rewrite (iloc_from_end (col_open ha1) 2 o) by (done || lia).
    rewrite (iloc_from_end (col_close ha2) 1 c2) by (done || lia).
    run_bind.
    rewrite (iloc_from_end ema1 2 e) by (done || lia).
    rewrite (iloc_from_end ema2 1 e2) by (done || lia).
    reflexivity.
Qed.

Lemma condition2_entry_signal_witness :
  condition2_entry Sample.fresh = (Ok tt, Sample.fresh)
  ∧ (action ∘ snd)
      <$> placed (ib (condition2_entry
                        (Sample_both Sample.ema_ha [5; 6]%float)).2)
    = ["BUY"%string]
  ∧ condition2_entry (Sample_both Sample.ema_ha [5; 3]%float)
    = (Ok tt, Sample_both Sample.ema_ha [5; 3]%float).
Proof.
  split; [|split].
  - apply (proj1 (condition2_entry_signal Sample.fresh)). exact I.
  - rewrite (proj2 (condition2_entry_signal
                      (Sample_both Sample.ema_ha [5; 6]%float))
               _ _ Sample.ema_ha [5; 6]%float 3%float 2%float 2.5%float
               4%float 6%float eq_refl eq_refl
               (le_S 2 2 (le_n 2)) (le_S 1 1 (le_n 1))
               eq_refl eq_refl eq_refl eq_refl eq_refl
               eq_refl eq_refl eq_refl eq_refl eq_refl).
    reflexivity.
  - rewrite (proj2 (condition2_entry_signal
                      (Sample_both Sample.ema_ha [5; 3]%float))
               _ _ Sample.ema_ha [5; 3]%float 3%float 2%float 2.5%float
               4%float 3%float eq_refl eq_refl
               (le_S 2 2 (le_n 2)) (le_S 1 1 (le_n 1))
               eq_refl eq_refl eq_refl eq_refl eq_refl
               eq_refl eq_refl eq_refl eq_refl eq_refl).
    reflexivity.
Defined.

(** ** Further properties of the trailing stop and of fills *)

(** The trailing-stop order of [manage_positions]. *)
Lemma TrailOrder_fields (act : string) (qty : num) (aux trail : float)
    (oca : option string) :
  set_outsideRth (TrailOrder act qty aux trail "trailing_stop_loss" oca)
  = mkOrder 0 act qty "TRAIL" (Some aux) (Some trail) "trailing_stop_loss"
            oca true.
Proof. reflexivity. Qed.

(** X10: one call of [manage_positions] places at most one order, and only
    for a non-zero S1 position with no trailing stop pending.  The order is
    a TRAIL order on the S1 contract tagged "trailing_stop_loss", in the
    connector's current OCA group, allowed outside regular hours, trailing by
    [trailing_stoploss * 0.25]; it sells the position size of a long and
    buys the absolute size of a short.  The scheduled tasks, the
    configuration, the bars, the frames and the OCA group of the connector
    are left as they were. *)
Theorem manage_positions_places_at_most_one_order (w : World) :
  tasks (manage_positions w) = tasks w
  ∧ (config (self (manage_positions w)) = config (self w)
     ∧ s1_bars (self (manage_positions w)) = s1_bars (self w)
     ∧ s1_ha_bars (self (manage_positions w)) = s1_ha_bars (self w)
     ∧ oca_group (self (manage_positions w)) = oca_group (self w))
  ∧ (placed (ib (manage_positions w)) = placed (ib w)
     ∨ ∃ act qty trail,
         placed (ib (manage_positions w))
         = placed (ib w)
           ++ [(s1_contract (self w),
                mkOrder 0 act qty "TRAIL"
                  (Some (cfg_trailing_stoploss (config (self w)) * 0.25)%float)
                  (Some trail) "trailing_stop_loss" (oca_group (self w)) true)]
         ∧ has_pending_trailing_stop_order w = false
         ∧ ((act = "SELL"%string ∧ qty = get_position_size w
             ∧ num_gt0 (get_position_size w) = true)
            ∨ (act = "BUY"%string ∧ qty = num_abs (get_position_size w)
               ∧ num_lt0 (get_position_size w) = true))).
Proof.
  unfold manage_positions.
  destruct (num_ne0 (get_position_size w)); simpl; [|by auto 10].
  destruct (has_pending_trailing_stop_order w); simpl; [by auto 10|].
  destruct (s1_bars (self w) ≫= last) as [last_bar|]; [|by auto 10].
  destruct (entry_price (self w)) as [p|].
  - destruct (num_gt0 (get_position_size w)) eqn:Hlong.
    + case_match; simpl; [|by auto 10].
      repeat split; try done. right. eexists _, _, _.
      split; [reflexivity|]. auto.
    + destruct (num_lt0 (get_position_size w)) eqn:Hshort; [|by auto 10].
      case_match; simpl; [|by auto 10].
      repeat split; try done. right. eexists _, _, _.
      split; [reflexivity|]. auto.
  - destruct (last (trades (ib w))) as [t|]; [|by auto 10].
    destruct (String.eqb (symbol (trade_contract t))
                (symbol (s1_contract (self w)))); [|by auto 10].
    cbn [self set_entry_price with_self config s1_contract oca_group].
    destruct (num_gt0 (get_position_size w)) eqn:Hlong.
    + case_match; simpl; [|by auto 10].
      repeat split; try done. right. eexists _, _, _.
      split; [reflexivity|]. auto.
    + destruct (num_lt0 (get_position_size w)) eqn:Hshort; [|by auto 10].
      case_match; simpl; [|by auto 10].
      repeat split; try done. right. eexists _, _, _.
      split; [reflexivity|]. auto.
Qed.

(** X11: recovering an unknown entry price.  For a non-zero S1 position
    with bars loaded, no trailing stop pending and no entry price recorded,
    [manage_positions] looks at the last trade of the session only: without
    any trade, or when that trade is on another symbol, it returns without
    changing anything; when it is on the S1 symbol its average fill price
    becomes the entry price, whatever the trade's tag or fill state. *)
Theorem manage_positions_recovers_entry_price (w : World) (last_bar : BarData) :
  num_ne0 (get_position_size w) = true →
  has_pending_trailing_stop_order w = false →
  s1_bars (self w) ≫= last = Some last_bar →
  entry_price (self w) = None →
  (last (trades (ib w)) = None → manage_positions w = w)
  ∧ (∀ t, last (trades (ib w)) = Some t →
          symbol (trade_contract t) ≠ symbol (s1_contract (self w)) →
          manage_positions w = w)
  ∧ (∀ t, last (trades (ib w)) = Some t →
          symbol (trade_contract t) = symbol (s1_contract (self w)) →
          entry_price (self (manage_positions w)) = Some (avgFillPrice t)).
Proof.
  intros Hpos Hpend Hbar Hnone. unfold manage_positions.
  rewrite Hpos, Hpend, Hbar, Hnone. simpl. split; [|split].
  - by intros ->.
  - intros t -> Hsym.
    by destruct (String.eqb_spec (symbol (trade_contract t))
                   (symbol (s1_contract (self w)))).
  - intros t -> Hsym. rewrite Hsym, String.eqb_refl.
    repeat case_match; reflexivity.
Qed.

Lemma manage_positions_recovers_entry_price_witness :
  manage_positions (Sample_resumed "ES") = Sample_resumed "ES"
  ∧ entry_price (self (manage_positions (Sample_resumed "MNQ")))
    = Some 0%float
  ∧ (action ∘ snd) <$> placed (ib (manage_positions (Sample_resumed "MNQ")))
    = ["SELL"%string].
Proof.
  split; [|split].
  - apply (proj1 (proj2 (manage_positions_recovers_entry_price
                           (Sample_resumed "ES") (mkBar 2 5 1 8)
                           eq_refl eq_refl eq_refl eq_refl)) _ eq_refl).
    discriminate.
  - apply (proj2 (proj2 (manage_positions_recovers_entry_price
                           (Sample_resumed "MNQ") (mkBar 2 5 1 8)
                           eq_refl eq_refl eq_refl eq_refl)) _ eq_refl).
    reflexivity.
  - vm_compute. reflexivity.
Defined.

(** X12: when the trailing stop is placed.  For an S1 position of size
    [p] with entry price [e], no trailing stop pending, and last raw bar
    [b]: a long ([p > 0]) gets its SELL trailing stop exactly when
    [high(b) - e >= trailing_stoploss_trigger * 0.25] (the bound included),
    with stop price [close(b) - trailing_stoploss * 0.25]; a short ([p < 0])
    gets its BUY trailing stop for [abs p] exactly when
    [e - low(b) >= trailing_stoploss_trigger * 0.25], with stop price
    [close(b) + trailing_stoploss * 0.25]. *)
Theorem manage_positions_trigger (w : World) (p e : float) (b : BarData) :
  get_position_size w = Float p →
  has_pending_trailing_stop_order w = false →
  s1_bars (self w) ≫= last = Some b →
  entry_price (self w) = Some e →
  let distance := (cfg_trailing_stoploss (config (self w)) * 0.25)%float in
  let trigger := (cfg_trailing_stoploss_trigger (config (self w)) * 0.25)%float in
  let trail act qty stop_price :=
    mkOrder 0 act qty "TRAIL" (Some distance) (Some stop_price)
            "trailing_stop_loss" (oca_group (self w)) true in
  ((0 <? p)%float = true →
     manage_positions w
     = if (trigger <=? bar_high b - e)%float
       then placeOrder (s1_contract (self w))
              (trail "SELL"%string (Float p) (bar_close b - distance)%float) w
       else w)
  ∧ ((p <? 0)%float = true →
     manage_positions w
     = if (trigger <=? e - bar_low b)%float
       then placeOrder (s1_contract (self w))
              (trail "BUY"%string (Float (abs p))
                     (bar_close b + distance)%float) w
       else w).
Proof.
  intros Hsize Hpend Hbar Hentry distance trigger trail.
  unfold manage_positions. rewrite Hsize, Hpend, Hbar, Hentry. simpl.
  split; intros Hsign.
  - assert ((p =? 0)%float = false) as ->.
    { destruct (p =? 0)%float eqn:Heq; [|done].
      apply float_eqb_not_ltb in Heq as [_ Heq]. congruence. }
    simpl. rewrite Hsign. reflexivity.
  - assert ((p =? 0)%float = false) as ->.
    { destruct (p =? 0)%float eqn:Heq; [|done].
      apply float_eqb_not_ltb in Heq as [Heq _]. congruence. }
    simpl. rewrite (float_ltb_asym _ _ Hsign), Hsign. reflexivity.
Qed.

Lemma manage_positions_trigger_witness :
  manage_positions (Sample.long [])
  = placeOrder Sample.MNQ
      (mkOrder 0 "SELL" (Float 2) "TRAIL" (Some (4 * 0.25)%float)
               (Some (8 - 4 * 0.25)%float) "trailing_stop_loss" None true)
      (Sample.long [])
  ∧ (6 * 0.25 <=? 5 - 3)%float = true.
Proof.
  split; [|reflexivity].
  apply (proj1 (manage_positions_trigger (Sample.long []) 2 3 (mkBar 2 5 1 8)
                  eq_refl eq_refl eq_refl eq_refl)).
  reflexivity.
Defined.

(** X13: fills the handler does not act on.  A fill of an order with any
    other tag than "entry" (the fixed or the trailing stop, a flattening
    order) changes nothing: in particular the recorded entry price and OCA
    group stay when the position is closed.  A fill tagged "entry" whose
    action is neither BUY nor SELL raises [UnboundLocalError] once the entry
    price and the OCA group have been overwritten, and places no order. *)
Theorem on_order_filled_other_fills (trade : Trade) (fill : Fill) (w : World) :
  (orderRef (order trade) ≠ "entry"%string →
     on_order_filled trade fill w = (Ok tt, w))
  ∧ (orderRef (order trade) = "entry"%string →
     action (order trade) ≠ "BUY"%string →
     action (order trade) ≠ "SELL"%string →
     ∃ w',
       on_order_filled trade fill w = (Raise UnboundLocalError, w')
       ∧ entry_price (self w') = Some (price fill)
       ∧ oca_group (self w')
         = Some ("oca_" ++ str_int (orderId (order trade)))%string
       ∧ ib w' = ib w
       ∧ tasks w' = tasks w).
Proof.
  unfold on_order_filled. split.
  - intros Href.
    by destruct (String.eqb_spec (orderRef (order trade)) "entry").
  - intros -> Hbuy Hsell. simpl.
    destruct (String.eqb_spec (action (order trade)) "BUY"); [done|].
    destruct (String.eqb_spec (action (order trade)) "SELL"); [done|].
    eexists. repeat split.
Qed.

Lemma on_order_filled_other_fills_witness :
  on_order_filled
    (mkTrade Sample.MNQ Sample.trailing_order 7) (mkFill 7) (Sample.long [])
  = (Ok tt, Sample.long [])
  ∧ ∃ w',
      on_order_filled (Sample.entry_trade "SSHORT") Sample.entry_fill
                      (Sample.long [])
      = (Raise UnboundLocalError, w')
      ∧ entry_price (self w') = Some 100.5%float
      ∧ oca_group (self w') = Some "oca_17"%string
      ∧ ib w' = ib (Sample.long [])
      ∧ tasks w' = [].
Proof.
  split.
  - apply (proj1 (on_order_filled_other_fills
                    (mkTrade Sample.MNQ Sample.trailing_order 7) (mkFill 7)
                    (Sample.long []))).
    discriminate.
  - apply (proj2 (on_order_filled_other_fills (Sample.entry_trade "SSHORT")
                    Sample.entry_fill (Sample.long [])));
      [reflexivity | discriminate | discriminate].
Defined.

(** X14: the two position queries agree on whether S1 is held:
    [has_open_position] is true exactly when [get_position_size] returns the
    size of a position line (a float, possibly 0.0), and false exactly when
    it returns the integer 0; both look at the first line on the S1 symbol. *)
Theorem position_queries_agree (w : World) :
  (has_open_position w = true ↔ ∃ p, get_position_size w = Float p)
  ∧ (has_open_position w = false ↔ get_position_size w = Int 0)
  ∧ (∀ p, get_position_size w = Float p →
          ∃ line, In line (positions (ib w))
                  ∧ symbol (pos_contract line) = symbol (s1_contract (self w))
                  ∧ position line = p).
Proof.
  unfold has_open_position, get_position_size.
  generalize (symbol (s1_contract (self w))) as s.
  intros s. induction (positions (ib w)) as [|line rest IH]; simpl.
  - repeat split; try done. intros [p Hp]. done.
  - destruct (String.eqb_spec (symbol (pos_contract line)) s) as [Hs|Hs]; simpl.
    + repeat split; try done; eauto.
      intros p [= <-]. exists line. auto.
    + destruct IH as (IH1 & IH2 & IH3).
      split; [exact IH1|]. split; [exact IH2|].
      intros p Hp. destruct (IH3 p Hp) as (l & ? & ? & ?). exists l. auto.
Qed.

(** X15: the daily PnL is the first matching line.  When the account
    summary holds several lines tagged 'RealizedPnL' in USD (one per account,
    say), [get_daily_pnl] returns the value of the first and never looks at
    the others; lines before it with another tag or currency are skipped. *)
Theorem get_daily_pnl_first_match (w : World) (before after : list AccountValue)
    (line : AccountValue) :
  accountSummary (ib w) = before ++ line :: after →
  tag line = "RealizedPnL"%string → currency line = "USD"%string →
  (∀ s, In s before →
        ¬ (tag s = "RealizedPnL"%string ∧ currency s = "USD"%string)) →
  get_daily_pnl w = value line.
Proof.
  intros Hsum Htag Hcur Hbefore. unfold get_daily_pnl. rewrite Hsum.
  clear Hsum. induction before as [|s rest IH]; simpl.
  - by rewrite Htag, Hcur.
  - destruct (String.eqb_spec (tag s) "RealizedPnL") as [Ht|_]; simpl.
    + destruct (String.eqb_spec (currency s) "USD") as [Hc|_].
      * exfalso. apply (Hbefore s); [by left|done].
      * apply IH. intros s' Hs'. apply Hbefore. by right.
    + apply IH. intros s' Hs'. apply Hbefore. by right.
Qed.

Lemma get_daily_pnl_first_match_witness :
  get_daily_pnl Sample_two_accounts = (-50)%float.
Proof.
  apply (get_daily_pnl_first_match Sample_two_accounts
           Sample.summary_without_pnl
           [mkAccountValue "RealizedPnL" "USD" 900]
           (mkAccountValue "RealizedPnL" "USD" (-50)) eq_refl eq_refl eq_refl).
  intros s [<-|[<-|[]]] [Ht Hc]; discriminate.
Defined.

(** ** Properties of exit and of the bar-close cycle *)

Lemma close_loop_spec (ps : list Position) (w : World) :
  self (close_loop ps w) = self w
  ∧ tasks (close_loop ps w) = tasks w
  ∧ positions (ib (close_loop ps w)) = positions (ib w)
  ∧ placed (ib (close_loop ps w))
    = placed (ib w) ++ flat_map (flatten_order (s1_contract (self w))) ps.
Proof.
  revert w. induction ps as [|p rest IH]; intros w; simpl.
  - by rewrite app_nil_r.
  - unfold flatten_order.
    destruct (String.eqb (symbol (pos_contract p))
                (symbol (s1_contract (self w)))).
    + destruct (0 <? position p)%float;
        [|destruct (position p <? 0)%float];
        match goal with |- context [close_loop rest ?w1] =>
          destruct (IH w1) as (-> & -> & -> & ->) end;
        simpl; rewrite <- ?app_assoc; done.
    + destruct (IH w) as (-> & -> & -> & ->). done.
Qed.



(** Both condition-1 rules once the two values they compare are read. *)
Lemma condition1_reads (w : World) (ha : DataFrame) (ema : list float)
    (c e : float) :
  s1_ha_bars (self w) = Some ha → 2 ≤ df_len ha →
  col_ema ha = Some ema → length ema = df_len ha →
  col_close ha !! (df_len ha - 2) = Some c →
  ema !! (df_len ha - 2) = Some e →
  (∀ position_size,
     condition1_exit position_size w
     = if (num_gt0 position_size && (c <? e)%float)%bool then exit_fires w
       else if (num_lt0 position_size && (e <? c)%float)%bool
       then exit_fires w
       else (Ok tt, w, []))
  ∧ condition1_entry w
    = if (e <? c)%float
      then (Ok tt, placeOrder (s1_contract (self w)) (entry_order w "BUY") w)
      else if (c <? e)%float
      then (Ok tt, placeOrder (s1_contract (self w)) (entry_order w "SELL") w)
      else (Ok tt, w).
Proof.
  intros Hha Hlen Hema Hlen' Hc He.
  rewrite <- Hlen' in He.
  assert (Hrc : iloc (col_close ha) (-2) = Ok c).
  { change (-2)%Z with (- Z.of_nat 2)%Z.
    apply iloc_from_end; (done || lia). }
  assert (Hre : iloc ema (-2) = Ok e).
  { change (-2)%Z with (- Z.of_nat 2)%Z.
    apply iloc_from_end; (done || lia). }
  split; [intros position_size|].
  - unfold condition1_exit. rewrite Hha.
    destruct (Nat.ltb_spec 1 (df_len ha)); [|lia].
    unfold get_ema. rewrite Hema, Hrc. run_bind. by rewrite Hre.
  - unfold condition1_entry. rewrite Hha.
    destruct (Nat.ltb_spec 1 (df_len ha)); [|lia].
    unfold get_ema. rewrite Hema, Hrc. run_bind. by rewrite Hre.
Qed.

(** X17: condition-1 exit.  With [c] the second-to-last S1 Heikin-Ashi
    close and [e] the EMA at that index: a long is closed (orders cancelled,
    position flattened) exactly when [c < e], a short exactly when [c > e],
    and nothing happens on [c = e].  The exit signal of a long is the SELL
    signal of [condition1_entry], that of a short its BUY signal.  With
    fewer than two rows (or no frame) the call does nothing. *)
Theorem condition1_exit_signal (w : World) (p : float) :
  (match s1_ha_bars (self w) with
   | Some ha => df_len ha < 2
   | None => True
   end → condition1_exit (Float p) w = (Ok tt, w, []))
  ∧ ∀ ha ema c e,
      s1_ha_bars (self w) = Some ha → 2 ≤ df_len ha →
      col_ema ha = Some ema → length ema = df_len ha →
      col_close ha !! (df_len ha - 2) = Some c →
      ema !! (df_len ha - 2) = Some e →
      ((0 <? p)%float = true →
         condition1_exit (Float p) w
         = if (c <? e)%float then exit_fires w else (Ok tt, w, []))
      ∧ ((p <? 0)%float = true →
         condition1_exit (Float p) w
         = if (e <? c)%float then exit_fires w else (Ok tt, w, []))
      ∧ ((c =? e)%float = true → condition1_exit (Float p) w = (Ok tt, w, []))
      ∧ ((0 <? p)%float = true → (c <? e)%float = true →
         condition1_entry w
         = (Ok tt, placeOrder (s1_contract (self w)) (entry_order w "SELL") w))
      ∧ ((p <? 0)%float = true → (e <? c)%float = true →
         condition1_entry w
         = (Ok tt, placeOrder (s1_contract (self w)) (entry_order w "BUY") w)).
Proof.
  split.
  - unfold condition1_exit. destruct (s1_ha_bars (self w)) as [ha|]; [|done].
    intros Hlt. by destruct (Nat.ltb_spec 1 (df_len ha)); [lia|].
  - intros ha ema c e Hha Hlen Hema Hlen' Hc He.
    destruct (condition1_reads w ha ema c e Hha Hlen Hema Hlen' Hc He)
      as [Hexit Hentry].
    rewrite Hexit, Hentry. simpl. repeat split.
    + intros Hlong. by rewrite Hlong, (float_ltb_asym _ _ Hlong).
    + intros Hshort. by rewrite Hshort, (float_ltb_asym _ _ Hshort).
    + intros Heq. destruct (float_eqb_not_ltb _ _ Heq) as [-> ->].
      by rewrite !andb_false_r.
    + intros _ Hbelow. by rewrite Hbelow, (float_ltb_asym _ _ Hbelow).
    + by intros _ ->.
Qed.

Lemma condition1_exit_signal_witness :
  condition1_exit (Float 2) Sample.fresh = (Ok tt, Sample.fresh, [])
  ∧ condition1_exit (Float 2)
      (Sample.long [mkTrade Sample.MNQ Sample.trailing_order 0])
    = exit_fires (Sample.long [mkTrade Sample.MNQ Sample.trailing_order 0])
  ∧ (exit_fires (Sample.long [mkTrade Sample.MNQ Sample.trailing_order 0])).2
    = [Sample.trailing_order]
  ∧ (action ∘ snd)
      <$> placed (ib (exit_fires
                        (Sample.long
                           [mkTrade Sample.MNQ Sample.trailing_order 0])).1.2)
    = ["SELL"%string].
Proof.
  split; [|split; [|split]].
  - apply (proj1 (condition1_exit_signal Sample.fresh 2)). exact I.
  - rewrite (proj1 (proj2 (condition1_exit_signal
                             (Sample.long
                                [mkTrade Sample.MNQ Sample.trailing_order 0]) 2)
                      (Sample.frame Sample.ema_raw) Sample.ema_raw
                      3%float 3.5%float eq_refl (le_S 2 2 (le_n 2))
                      eq_refl eq_refl eq_refl eq_refl) eq_refl).
    reflexivity.
  - vm_compute. reflexivity.
  - vm_compute. reflexivity.
Defined.

(** X18: condition-2 exit is condition-1 exit with one more test:
    whenever [condition2_exit] cancels an order or changes the state,
    [condition1_exit] does exactly the same on that state. *)
Theorem condition2_exit_implies_condition1_exit (position_size : num)
    (w : World) :
  (condition2_exit position_size w).1.2 ≠ w
  ∨ (condition2_exit position_size w).2 ≠ [] →
  condition1_exit position_size w = condition2_exit position_size w.
Proof.
  unfold condition2_exit, condition1_exit.
  destruct (s1_ha_bars (self w)) as [ha|]; [|by intros [|]].
  destruct (1 <? df_len ha); [|by intros [|]].
  destruct (iloc (col_close ha) (-2)) as [c|]; [|by intros [|]]. simpl.
  destruct (iloc (col_open ha) (-2)) as [o|]; [|by intros [|]]. simpl.
  destruct (get_ema ha ≫= λ ema, iloc ema (-2)) as [e|]; [|by intros [|]].
  simpl.
  destruct (num_gt0 position_size), (num_lt0 position_size),
    (c <? e)%float, (e <? c)%float, (c <? o)%float, (o <? c)%float;
    simpl; try done; by intros [|].
Qed.

Lemma condition2_exit_implies_condition1_exit_witness :
  condition1_exit (Float 2) (Sample_bearish [])
  = condition2_exit (Float 2) (Sample_bearish [])
  ∧ (action ∘ snd)
      <$> placed (ib (condition2_exit (Float 2) (Sample_bearish [])).1.2)
    = ["SELL"%string].
Proof.
  split; [|vm_compute; reflexivity].
  apply (condition2_exit_implies_condition1_exit (Float 2) (Sample_bearish [])).
  left. vm_compute. intros H. discriminate H.
Defined.

Lemma get_position_size_flat (w : World) :
  has_open_position w = false → get_position_size w = Int 0.
Proof.
  unfold has_open_position, get_position_size.
  induction (positions (ib w)) as [|line rest IH]; simpl; [done|].
  by destruct (String.eqb (symbol (pos_contract line))
                 (symbol (s1_contract (self w)))).
Qed.

(** An exit pass either fires or leaves the state alone. *)
Lemma exit_outcome (w : World) :
  exit w = exit_fires w ∨ ∃ r, exit w = (r, w, []).
Proof.
  unfold exit, condition1_exit, condition2_exit.
  repeat case_match; eauto.
Qed.

Lemma exit_fires_keeps (w : World) :
  (exit_fires w).1.1 = Ok tt
  ∧ self (exit_fires w).1.2 = self w
  ∧ positions (ib (exit_fires w).1.2) = positions (ib w).
Proof.
  unfold exit_fires, exit_s1_and_cancel_orders. simpl.
  destruct (close_loop_spec (positions (ib w)) w) as (-> & _ & -> & _).
  done.
Qed.

(** X19: one bar-close cycle, [execute].  Whatever happens during the
    settle delay: when S1 is not held the exit pass does nothing and the
    cycle is the entry pass on the state found after the delay; when the
    exit pass raises, the cycle ends there and entry is not evaluated; and
    when S1 is held and the position table (and the S1 contract) read the
    same after the delay, the entry pass places nothing, so the cycle can
    close a position but not reverse it. *)
Theorem execute_exits_or_enters (during_sleep : World → World) (w : World) :
  (has_open_position w = false →
     execute during_sleep w
     = ((entry (during_sleep w)).1, (entry (during_sleep w)).2, []))
  ∧ (∀ e, (exit w).1.1 = Raise e → execute during_sleep w = exit w)
  ∧ (has_open_position w = true →
     (∀ x, positions (ib (during_sleep x)) = positions (ib x)
           ∧ s1_contract (self (during_sleep x)) = s1_contract (self x)) →
     (exit w).1.1 = Ok tt →
     execute during_sleep w
     = (Ok tt, during_sleep (exit w).1.2, (exit w).2)).
Proof.
  split; [|split].
  - intros Hflat. unfold execute, exit.
    rewrite (get_position_size_flat w Hflat). simpl.
    destruct (cfg_condition (config (self w)));
      rewrite ?andb_false_r; by destruct (entry _).
  - intros e He. unfold execute.
    destruct (exit w) as [[r w1] cancelled]. simpl in He. by subst r.
  - intros Hheld Hsleep Hok. unfold execute.
    assert (Hkept : self (exit w).1.2 = self w
                    ∧ positions (ib (exit w).1.2) = positions (ib w)).
    { destruct (exit_outcome w) as [->|[r ->]]; [|done].
      by destruct (exit_fires_keeps w) as (_ & -> & ->). }
    destruct (exit w) as [[r w1] cancelled]. simpl in *. subst r.
    destruct Hkept as [Hself Hpos].
    assert (Hstill : has_open_position (during_sleep w1) = true).
    { unfold has_open_position in *.
      destruct (Hsleep w1) as [-> ->]. by rewrite Hself, Hpos. }
    rewrite (entry_blocked (during_sleep w1)) by auto. reflexivity.
Qed.

Lemma execute_exits_or_enters_witness :
  (action ∘ snd)
    <$> placed (ib (execute id (Sample.flat Sample.ema_ha 0)).1.2)
  = ["BUY"%string]
  ∧ execute id Sample_no_ema = (Raise KeyError, Sample_no_ema, [])
  ∧ (action ∘ snd) <$> placed (ib (execute id (Sample.long [])).1.2)
    = ["SELL"%string]
  ∧ (orderRef ∘ snd) <$> placed (ib (execute id (Sample.long [])).1.2)
    = [EmptyString].
Proof.
  split; [|split; [|split]].
  - rewrite (proj1 (execute_exits_or_enters id (Sample.flat Sample.ema_ha 0))
               eq_refl).
    vm_compute. reflexivity.
  - rewrite (proj1 (proj2 (execute_exits_or_enters id Sample_no_ema))
               KeyError eq_refl).
    vm_compute. reflexivity.
  - rewrite (proj2 (proj2 (execute_exits_or_enters id (Sample.long [])))
               eq_refl (fun x => conj eq_refl eq_refl) eq_refl).
    vm_compute. reflexivity.
  - vm_compute. reflexivity.
Defined.

(** ** Invariants of a session *)

Lemma grows_refl (w : World) : grows w w.
Proof.
  repeat split; try done. exists []. by rewrite app_nil_r.
Qed.

Lemma grows_trans (w1 w2 w3 : World) : grows w1 w2 → grows w2 w3 → grows w1 w3.
Proof.
  intros ((Hc & Hs1 & Hs2 & Hu & Hl) & He & Ho & new1 & Hp1 & Hk1)
         ((Hc' & Hs1' & Hs2' & Hu' & Hl') & He' & Ho' & new2 & Hp2 & Hk2).
  split; [repeat split; congruence|].
  split; [auto|]. split; [auto|].
  exists (new1 ++ new2). split.
  - by rewrite Hp2, Hp1, app_assoc.
  - apply Forall_app. split; [done|]. by rewrite <- Hs1.
Qed.

(** Placing one order of a known kind. *)
Lemma grows_placeOrder (w : World) (o : Order) :
  known_order (s1_contract (self w)) (s1_contract (self w), o) →
  grows w (placeOrder (s1_contract (self w)) o w).
Proof.
  intros Hk. repeat split; try done.
  exists [(s1_contract (self w), o)]. split; [done|]. by constructor.
Qed.

Lemma grows_set_entry_price (w : World) (p : float) :
  grows w (set_entry_price w (Some p)).
Proof.
  repeat split; try done. exists []. by rewrite app_nil_r.
Qed.

Lemma entry_grows (w : World) : grows w (entry w).2.
Proof.
  destruct (entry_outcome w) as [->|(act & Hact & ->)]; [apply grows_refl|].
  apply grows_placeOrder. split; [done|]. left. done.
Qed.

Lemma exit_grows (w : World) : grows w (exit w).1.2.
Proof.
  destruct (exit_outcome w) as [->|[r ->]]; [|apply grows_refl].
  unfold exit_fires, exit_s1_and_cancel_orders. simpl.
  destruct (close_loop_spec (positions (ib w)) w)
    as (Hself & _ & _ & Hplaced).
  unfold grows. rewrite Hself. repeat split; try done.
  eexists. split; [exact Hplaced|].
  apply Forall_flat_map, Forall_forall. intros p _.
  unfold flatten_order.
  repeat case_match;
    first [ by apply Forall_nil_2
          | apply Forall_singleton; (split; [done|]); do 3 right; done ].
Qed.

Lemma manage_positions_grows (w : World) : grows w (manage_positions w).
Proof.
  unfold manage_positions.
  destruct (num_ne0 _ && negb _)%bool; [|apply grows_refl].
  destruct (s1_bars (self w) ≫= last) as [last_bar|]; [|apply grows_refl].
  assert (Htrail : ∀ w1 act qty aux trail,
            grows w w1 →
            grows w (placeOrder (s1_contract (self w1))
                       (set_outsideRth
                          (TrailOrder act qty aux trail "trailing_stop_loss"
                                      (oca_group (self w1)))) w1)).
  { intros w1 act qty aux trail H1. apply (grows_trans _ w1); [done|].
    apply grows_placeOrder. split; [done|]. right; right; left. done. }
  destruct (entry_price (self w)) as [p|].
  - repeat case_match; try apply grows_refl; apply Htrail, grows_refl.
  - destruct (last (trades (ib w))) as [t|]; [|apply grows_refl].
    destruct (String.eqb _ _); [|apply grows_refl].
    repeat case_match; try apply grows_set_entry_price;
      apply Htrail, grows_set_entry_price.
Qed.

Lemma on_order_filled_grows (trade : Trade) (fill : Fill) (w : World) :
  grows w (on_order_filled trade fill w).2.
Proof.
  unfold on_order_filled.
  destruct (String.eqb _ "entry"); [|apply grows_refl].
  destruct (String.eqb (action (order trade)) "BUY");
    [|destruct (String.eqb (action (order trade)) "SELL")]; simpl.
  - repeat split; try done. eexists [_]. split; [reflexivity|].
    apply Forall_singleton. split; [done|]. right; left. done.
  - repeat split; try done. eexists [_]. split; [reflexivity|].
    apply Forall_singleton. split; [done|]. right; left. done.
  - repeat split; try done. exists []. by rewrite app_nil_r.
Qed.

Lemma bar_update_grows (bars : list BarData) (hasNewBar : bool) (w : World) :
  grows w (on_s1_bar_update bars hasNewBar w).2
  ∧ grows w (on_s2_bar_update bars hasNewBar w).2.
Proof.
  unfold on_s1_bar_update, on_s2_bar_update.
  split; repeat case_match; simpl;
    repeat split; try done; exists []; by rewrite app_nil_r.
Qed.

Lemma step_grows (w w' : World) : step w w' → grows w w'.
Proof.
  destruct 1.
  - apply bar_update_grows.
  - apply bar_update_grows.
  - apply on_order_filled_grows.
  - apply exit_grows.
  - apply entry_grows.
  - apply manage_positions_grows.
  - repeat split; try done. exists []. by rewrite app_nil_r.
Qed.

Lemma reachable_grows (w0 w : World) : reachable w0 w → grows w0 w.
Proof.
  induction 1 as [|w w' _ IH Hstep]; [apply grows_refl|].
  apply (grows_trans _ w); [exact IH|]. by apply step_grows.
Qed.

Lemma reachable_Sample_session : reachable Sample.fresh Sample_session.
Proof.
  unfold Sample_session.
  eapply reachable_step; [|apply step_order_filled].
  eapply reachable_step; [|apply step_entry].
  eapply reachable_step; [|apply step_s1_bar_update].
  apply reachable_start.
Qed.

(** X20: nothing in a session resets the position state.  Along any run
    of handlers, scheduled coroutines and broker changes, the configuration,
    both contracts and the PnL limits stay what they were, and an entry
    price or OCA group, once recorded, is never cleared: a later entry fill
    can only overwrite it. *)
Theorem session_keeps_position_state (w0 w : World) :
  reachable w0 w →
  (config (self w) = config (self w0)
   ∧ s1_contract (self w) = s1_contract (self w0)
   ∧ s2_contract (self w) = s2_contract (self w0)
   ∧ upper_pnl (self w) = upper_pnl (self w0)
   ∧ lower_pnl (self w) = lower_pnl (self w0))
  ∧ (entry_price (self w0) ≠ None → entry_price (self w) ≠ None)
  ∧ (oca_group (self w0) ≠ None → oca_group (self w) ≠ None).
Proof.
  intros Hreach.
  destruct (reachable_grows w0 w Hreach) as (Hconst & Hentry & Hoca & _).
  done.
Qed.

Lemma reachable_Sample_stopped_out :
  reachable Sample_filled Sample_stopped_out.
Proof.
  unfold Sample_stopped_out. cbv zeta.
  eapply reachable_step; [|apply step_manage_positions].
  eapply reachable_step; [|apply step_entry].
  eapply reachable_step; [|apply step_exit].
  eapply reachable_step; [|apply step_s1_bar_update].
  eapply reachable_step; [|apply step_broker].
  eapply reachable_step; [|apply step_order_filled].
  apply reachable_start.
Qed.

Lemma session_keeps_position_state_witness :
  (entry_price (self Sample_filled) = Some 100.5%float
   ∧ oca_group (self Sample_filled) = Some "oca_17"%string)
  ∧ has_open_position Sample_stopped_out = false
  ∧ (config (self Sample_stopped_out) = Sample.cfg
     ∧ s1_contract (self Sample_stopped_out) = Sample.MNQ
     ∧ s2_contract (self Sample_stopped_out) = Sample.VIX
     ∧ upper_pnl (self Sample_stopped_out) = 100%float
     ∧ lower_pnl (self Sample_stopped_out) = (-100)%float)
  ∧ entry_price (self Sample_stopped_out) ≠ None
  ∧ oca_group (self Sample_stopped_out) ≠ None
  ∧ entry_price (self Sample_stopped_out) = Some 100.5%float
  ∧ oca_group (self Sample_stopped_out) = Some "oca_17"%string.
Proof.
  destruct (session_keeps_position_state Sample_filled Sample_stopped_out
              reachable_Sample_stopped_out) as (Hconst & Hentry & Hoca).
  split; [split; reflexivity|]. split; [reflexivity|].
  split; [exact Hconst|].
  split; [apply Hentry; discriminate|].
  split; [apply Hoca; discriminate|].
  split; vm_compute; reflexivity.
Defined.

(** X21: the connector only ever trades the S1 contract.  Along any run,
    the orders handed to the broker are kept in order and only added to,
    and every added order is on the S1 contract and of one of four kinds: a
    market order tagged "entry", a stop order tagged "fixed_stop_loss", a
    TRAIL order tagged "trailing_stop_loss" (these three allowed outside
    regular hours), or an untagged flattening market order (not allowed
    outside regular hours). *)
Theorem session_orders_on_s1 (w0 w : World) :
  reachable w0 w →
  ∃ new,
    placed (ib w) = placed (ib w0) ++ new
    ∧ Forall (known_order (s1_contract (self w0))) new.
Proof.
  intros Hreach.
  destruct (reachable_grows w0 w Hreach) as (_ & _ & _ & Hplaced).
  exact Hplaced.
Qed.

Lemma session_orders_on_s1_witness :
  (orderRef ∘ snd) <$> placed (ib Sample_session)
  = ["entry"%string; "fixed_stop_loss"%string]
  ∧ ∃ new,
      placed (ib Sample_session) = placed (ib Sample.fresh) ++ new
      ∧ Forall (known_order Sample.MNQ) new.
Proof.
  split; [vm_compute; reflexivity|].
  apply (session_orders_on_s1 Sample.fresh Sample_session).
  apply reachable_Sample_session.
Defined.

Lemma compute_heikin_ashi_aligned (bars : list BarData) (ha : DataFrame) :
  compute_heikin_ashi bars = Ok ha →
  frame_aligned ha ∧ df_len ha = length bars ∧ col_ema ha = None.
Proof.
  intros Hha. destruct bars as [|b rest]; [done|].
  destruct (compute_heikin_ashi_ok (b :: rest)) as (ha' & Hha' & Hrec & _ & _ & Hema);
    [done|].
  assert (ha' = ha) as -> by congruence.
  destruct Hrec as ((Lo & Lh & Ll & Lc) & _).
  unfold frame_aligned, df_len. rewrite Hema.
  repeat split; congruence.
Qed.

Lemma compute_ema_length (prices : list float) (period : Z) (ema : list float) :
  compute_ema prices period = Ok ema → length ema = length prices.
Proof.
  intros Hema.
  destruct (truediv 2 (period + 1)) as [alpha|e] eqn:Halpha;
    [|by unfold compute_ema in Hema; rewrite Halpha in Hema].
  destruct prices as [|p rest];
    [by unfold compute_ema in Hema; rewrite Halpha in Hema|].
  destruct (compute_ema_from_alpha (p :: rest) period alpha)
    as (ema' & Hema' & Hlen & _); [done..|].
  congruence.
Qed.

Lemma frame_aligned_set_ema (ha : DataFrame) (ema : list float) :
  frame_aligned ha → length ema = df_len ha → frame_aligned (set_ema ha ema).
Proof.
  intros (Lo & Lh & Ll & _) Hlen. unfold frame_aligned, df_len in *. simpl.
  repeat split; try done. by intros ? [= <-].
Qed.

Lemma step_frames_aligned (w w' : World) :
  step w w' → frames_aligned w → frames_aligned w'.
Proof.
  intros Hstep [H1 H2]. destruct Hstep.
  - unfold on_s1_bar_update.
    destruct (compute_heikin_ashi bars) as [ha|] eqn:Hha; [|by split].
    destruct (compute_heikin_ashi_aligned bars ha Hha) as (Hal & Hlen & _).
    destruct (raw_close bars ≫= _) as [ema|] eqn:Hema.
    + assert (length ema = df_len ha) as Hlen'.
      { unfold raw_close in Hema. destruct bars as [|b rest]; [done|].
        simpl in Hema. apply compute_ema_length in Hema.
        rewrite Hema, Hlen. simpl. f_equal. apply length_fmap. }
      destruct hasNewBar; simpl; (split; [|done]);
        intros df [= <-]; by apply frame_aligned_set_ema.
    + simpl. split; [|done]. by intros df [= <-].
  - unfold on_s2_bar_update.
    destruct (compute_heikin_ashi bars) as [ha|] eqn:Hha; [|by split].
    destruct (compute_heikin_ashi_aligned bars ha Hha) as (Hal & Hlen & _).
    cbn [self set_s2_ha_bars set_s2_bars with_self config].
    destruct (compute_ema (col_close ha) _) as [ema|] eqn:Hema.
    + apply compute_ema_length in Hema. simpl. split; [done|].
      intros df [= <-]. by apply frame_aligned_set_ema.
    + simpl. split; [done|]. by intros df [= <-].
  - unfold on_order_filled. repeat case_match; simpl; by split.
  - destruct (exit_outcome w) as [->|[r ->]]; [|by split].
    destruct (exit_fires_keeps w) as (_ & Hself & _). unfold frames_aligned.
    by rewrite Hself.
  - destruct (entry_outcome w) as [->|(act & _ & ->)]; simpl; by split.
  - unfold manage_positions. repeat case_match; simplify_eq; simpl; by split.
  - by split.
Qed.

(** X22: every frame a session stores is aligned.  If the Heikin-Ashi
    frames of the initial state (if any) have columns of one length, so have
    those of every state a run reaches, the ['ema'] column included whenever
    it is present: the rules always compare a close and an EMA value of the
    same bar. *)
Theorem session_frames_aligned (w0 w : World) :
  frames_aligned w0 → reachable w0 w → frames_aligned w.
Proof.
  intros H0 Hreach. induction Hreach as [|w w' _ IH Hstep]; [done|].
  by apply (step_frames_aligned w).
Qed.

Lemma session_frames_aligned_witness :
  frames_aligned Sample_session
  ∧ ∃ df ema, s1_ha_bars (self Sample_session) = Some df
              ∧ col_ema df = Some ema ∧ length ema = df_len df.
Proof.
  assert (H0 : frames_aligned Sample.fresh) by (by split).
  pose proof (session_frames_aligned Sample.fresh Sample_session H0
                reachable_Sample_session) as H.
  split; [exact H|].
  eexists _, _. split; [vm_compute; reflexivity|]. split; reflexivity.
Defined.
